(** * Almeer pairing site: session registry, credential encoder and HTTP handlers

    A shallow embedding of [index.js].  The repository holds three
    near-identical copies of that file.  They differ in the digit
    threshold of the phone check, in the [isFile] test of the encoder,
    in the guard around [sock.end()] and in the texts of the messages;
    [copy] names the copy, and where the copies differ both versions are
    embedded.

    JavaScript strings are sequences of UTF-16 code units; a code unit
    is an [N].  Thrown exceptions are explicit: a computation yields
    [Return v] or [Throw e], and [try]/[catch] is [try_catch] (on the
    world, [etry]).  The external messaging library, the clock and the
    random generator are inputs of the handlers. *)

From Stdlib Require Import NArith ZArith Ascii String List Lia.
From stdpp Require Import base option list gmap fin_maps countable numbers strings.

#[local] Set Warnings "-register-all".
#[local] Open Scope N_scope.

(* ===================================================================== *)
(** * JavaScript strings *)
(* ===================================================================== *)

Abbreviation jsstring := (list N).

Definition is_high_surrogate (u : N) : bool := (55296 <=? u) && (u <? 56320).
Definition is_low_surrogate (u : N) : bool := (56320 <=? u) && (u <? 57344).
Definition is_surrogate (u : N) : bool := (55296 <=? u) && (u <? 57344).
Definition is_continuation (b : N) : bool := (128 <=? b) && (b <? 192).

(** The bytes of a Rocq string literal. *)
Definition bytes_of (s : string) : list N :=
  map N_of_ascii (list_ascii_of_string s).

(** [Buffer.from(bytes).toString('utf8')] on well-formed input: UTF-8
    bytes to UTF-16 code units.  Node substitutes U+FFFD for malformed
    sequences; this decoder answers [None] there, which is all the
    development needs (it only decodes what [utf8_encode] produced and
    the literals of this file). *)
Fixpoint utf8_decode (bs : list N) : option jsstring :=
  match bs with
  | [] => Some []
  | b0 :: r0 =>
      if b0 <? 128 then cons b0 <$> utf8_decode r0
      else if (194 <=? b0) && (b0 <? 224) then
        match r0 with
        | b1 :: r1 =>
            if is_continuation b1
            then cons ((b0 - 192) * 64 + (b1 - 128)) <$> utf8_decode r1
            else None
        | _ => None
        end
      else if (224 <=? b0) && (b0 <? 240) then
        match r0 with
        | b1 :: b2 :: r2 =>
            let cp := (b0 - 224) * 4096 + (b1 - 128) * 64 + (b2 - 128) in
            if is_continuation b1 && is_continuation b2
               && (2048 <=? cp) && negb (is_surrogate cp)
            then cons cp <$> utf8_decode r2
            else None
        | _ => None
        end
      else if (240 <=? b0) && (b0 <? 245) then
        match r0 with
        | b1 :: b2 :: b3 :: r3 =>
            let cp := (b0 - 240) * 262144 + (b1 - 128) * 4096
                      + (b2 - 128) * 64 + (b3 - 128) in
            if is_continuation b1 && is_continuation b2 && is_continuation b3
               && (65536 <=? cp) && (cp <? 1114112)
            then (fun t => (55296 + (cp - 65536) / 1024)
                           :: (56320 + (cp - 65536) mod 1024) :: t)
                 <$> utf8_decode r3
            else None
        | _ => None
        end
      else None
  end.

(** A string literal of the source, as code units. *)
Definition js (s : string) : jsstring := default [] (utf8_decode (bytes_of s)).

(** [Buffer.from(str)] (encoding 'utf8'): a surrogate pair becomes one
    four-byte sequence, a lone surrogate becomes U+FFFD (EF BF BD). *)
Fixpoint utf8_encode (s : jsstring) : list N :=
  match s with
  | [] => []
  | u :: r =>
      if u <? 128 then u :: utf8_encode r
      else if u <? 2048 then
        (192 + u / 64) :: (128 + u mod 64) :: utf8_encode r
      else if is_high_surrogate u then
        match r with
        | v :: r' =>
            if is_low_surrogate v then
              let cp := 65536 + (u - 55296) * 1024 + (v - 56320) in
              (240 + cp / 262144) :: (128 + (cp / 4096) mod 64)
              :: (128 + (cp / 64) mod 64) :: (128 + cp mod 64)
              :: utf8_encode r'
            else 239 :: 191 :: 189 :: utf8_encode r
        | [] => [239; 191; 189]
        end
      else if is_low_surrogate u then 239 :: 191 :: 189 :: utf8_encode r
      else (224 + u / 4096) :: (128 + (u / 64) mod 64) :: (128 + u mod 64)
           :: utf8_encode r
  end.

(** [arr.join(sep)] on an array of strings. *)
Fixpoint join (sep : jsstring) (parts : list jsstring) : jsstring :=
  match parts with
  | [] => []
  | [p] => p
  | p :: rest => p ++ sep ++ join sep rest
  end.

(** ** [phone.replace(/[^0-9]/g, '')] *)

Definition is_digit (u : N) : bool := (48 <=? u) && (u <=? 57).

Definition stripNonDigits (phone : jsstring) : jsstring := filter is_digit phone.

(** ** [code.match(/.{1,4}/g)]

    [.] matches every code unit except the line terminators LF, CR,
    U+2028 and U+2029.  A global match scans from the left: where
    [.{1,4}] matches it takes greedily up to four code units and the scan
    resumes after them; where it does not (the scan stands on a line
    terminator) the scan moves one code unit on. *)

Definition is_line_terminator (u : N) : bool :=
  (u =? 10) || (u =? 13) || (u =? 8232) || (u =? 8233).

(** Greedy [.{0,n}] at the head of [s]: the match and what follows. *)
Fixpoint take_dots (n : nat) (s : jsstring) : jsstring * jsstring :=
  match n, s with
  | S n', u :: s' =>
      if is_line_terminator u then ([], s)
      else let '(m, r) := take_dots n' s' in (u :: m, r)
  | _, _ => ([], s)
  end.

Fixpoint match_dots_fuel (fuel : nat) (s : jsstring) : list jsstring :=
  match fuel with
  | O => []
  | S fuel' =>
      match s with
      | [] => []
      | _ :: s' =>
          match take_dots 4 s with
          | ([], _) => match_dots_fuel fuel' s'
          | (m, r) => m :: match_dots_fuel fuel' r
          end
      end
  end.

(** All matches of [/.{1,4}/g]; [String.prototype.match] answers [null]
    when this list is empty. *)
Definition match_dots (s : jsstring) : list jsstring :=
  match_dots_fuel (length s) s.

(** [code?.match(/.{1,4}/g)?.join('-') || code] on a string; [None] is
    a code that is [null] or [undefined], which the expression passes
    on as it is ([formattedCode] tells the two apart). *)
Definition formatCode (code : option jsstring) : option jsstring :=
  match code with
  | None => None
  | Some c =>
      match match_dots c with
      | [] => Some c
      | groups =>
          match join (js "-") groups with
          | [] => Some c
          | joined => Some joined
          end
      end
  end.


(* ===================================================================== *)
(** * The [files] object and its serialisation *)
(* ===================================================================== *)

(** [const files = {}]: an ordinary object whose property values are
    strings, kept as its own properties in creation order. *)
Abbreviation jsobject := (list (jsstring * jsstring)).

Definition proto_key : jsstring := Eval vm_compute in js "__proto__".

(** Reading an own property. *)
Fixpoint obj_get (o : jsobject) (k : jsstring) : option jsstring :=
  match o with
  | [] => None
  | (k', v) :: o' => if decide (k' = k) then Some v else obj_get o' k
  end.

(** Defining an own data property: an existing property keeps its
    place and takes the new value, a new one goes last. *)
Fixpoint obj_define (o : jsobject) (k v : jsstring) : jsobject :=
  match o with
  | [] => [(k, v)]
  | (k', v') :: o' =>
      if decide (k' = k) then (k', v) :: o' else (k', v') :: obj_define o' k v
  end.

(** [files[file] = content].  The object was made by [{}], so its
    prototype is [Object.prototype], whose accessor [__proto__] takes
    an assignment to that key; the setter ignores a value that is
    neither an object nor [null], and a string is neither: such an
    assignment defines no property.  Every other key defines an own
    property. *)
Definition obj_set (o : jsobject) (k v : jsstring) : jsobject :=
  if decide (k = proto_key) then o else obj_define o k v.

(** An array index is the canonical decimal numeral of an integer in
    [0, 2^32 - 2]. *)
Fixpoint digits_value (acc : N) (s : jsstring) : option N :=
  match s with
  | [] => Some acc
  | u :: r => if is_digit u then digits_value (acc * 10 + (u - 48)) r else None
  end.

Definition array_index (k : jsstring) : option N :=
  match k with
  | [] => None
  | [u] => if is_digit u then Some (u - 48) else None
  | u :: _ =>
      if u =? 48 then None
      else match digits_value 0 k with
           | Some n => if n <? 4294967295 then Some n else None
           | None => None
           end
  end.

Fixpoint insert_by_index (e : N * (jsstring * jsstring))
    (l : list (N * (jsstring * jsstring))) : list (N * (jsstring * jsstring)) :=
  match l with
  | [] => [e]
  | e' :: l' => if fst e <=? fst e' then e :: l else e' :: insert_by_index e l'
  end.

(** Own enumerable string keys in the order [JSON.stringify] visits
    them: array indices ascending, then the other keys in creation
    order. *)
Definition own_entries (o : jsobject) : jsobject :=
  let indexed :=
    omap (fun kv => (fun n => (n, kv)) <$> array_index (fst kv)) o in
  let named :=
    filter (fun kv => bool_decide (array_index (fst kv) = None)) o in
  map snd (foldr insert_by_index [] indexed) ++ named.

Definition hex_digit (n : N) : N := if n <? 10 then 48 + n else 87 + n.

(** [\uXXXX] with lower-case hexadecimal digits. *)
Definition unicode_escape (u : N) : jsstring :=
  [92; 117; hex_digit (u / 4096); hex_digit ((u / 256) mod 16);
   hex_digit ((u / 16) mod 16); hex_digit (u mod 16)].

(** The body of [QuoteJSONString]: the short escapes, [\uXXXX] for the
    other control characters and for lone surrogates, everything else
    as it is. *)
Fixpoint quote_chars (s : jsstring) : jsstring :=
  match s with
  | [] => []
  | u :: r =>
      if u =? 8 then 92 :: 98 :: quote_chars r
      else if u =? 9 then 92 :: 116 :: quote_chars r
      else if u =? 10 then 92 :: 110 :: quote_chars r
      else if u =? 12 then 92 :: 102 :: quote_chars r
      else if u =? 13 then 92 :: 114 :: quote_chars r
      else if u =? 34 then 92 :: 34 :: quote_chars r
      else if u =? 92 then 92 :: 92 :: quote_chars r
      else if u <? 32 then unicode_escape u ++ quote_chars r
      else if is_high_surrogate u then
        match r with
        | v :: r' =>
            if is_low_surrogate v then u :: v :: quote_chars r'
            else unicode_escape u ++ quote_chars r
        | [] => unicode_escape u
        end
      else if is_low_surrogate u then unicode_escape u ++ quote_chars r
      else u :: quote_chars r
  end.

Definition QuoteJSONString (s : jsstring) : jsstring :=
  34 :: quote_chars s ++ [34].

(** [JSON.stringify(files)] for an object of strings, no indentation. *)
Definition JSON_stringify (o : jsobject) : jsstring :=
  123 :: join [44]
           (map (fun kv => QuoteJSONString (fst kv) ++ 58 :: QuoteJSONString (snd kv))
                (own_entries o))
      ++ [125].

(** ** Base64 ([buffer.toString('base64')]) *)

Definition base64_alphabet : list N :=
  Eval vm_compute in
    bytes_of "ABCDEFGHIJKLMNOPQRSTUVWXYZabcdefghijklmnopqrstuvwxyz0123456789+/".

Definition base64_char (sextet : N) : N := nth (N.to_nat sextet) base64_alphabet 0.

Fixpoint base64_encode (bs : list N) : jsstring :=
  match bs with
  | [] => []
  | [a] => [base64_char (a / 4); base64_char ((a mod 4) * 16); 61; 61]
  | [a; b] =>
      [base64_char (a / 4); base64_char ((a mod 4) * 16 + b / 16);
       base64_char ((b mod 16) * 4); 61]
  | a :: b :: c :: r =>
      base64_char (a / 4) :: base64_char ((a mod 4) * 16 + b / 16)
      :: base64_char ((b mod 16) * 4 + c / 64) :: base64_char (c mod 64)
      :: base64_encode r
  end.

(** [Buffer.from(JSON.stringify(files)).toString('base64')]. *)
Definition encode_files (files : jsobject) : jsstring :=
  base64_encode (utf8_encode (JSON_stringify files)).

(* ===================================================================== *)
(** * Decoding a session string *)
(* ===================================================================== *)

(** The repository only encodes.  Reading a session string back is what
    its consumer does: base64-decode, read the bytes as UTF-8, parse the
    JSON text.  The three steps are written here from RFC 4648, RFC 3629
    and the JSON grammar, for an object whose members are strings. *)

Definition base64_value (c : N) : option N :=
  if (65 <=? c) && (c <=? 90) then Some (c - 65)
  else if (97 <=? c) && (c <=? 122) then Some (c - 71)
  else if (48 <=? c) && (c <=? 57) then Some (c + 4)
  else if c =? 43 then Some 62
  else if c =? 47 then Some 63
  else None.

Fixpoint base64_decode (s : jsstring) : option (list N) :=
  match s with
  | [] => Some []
  | c0 :: c1 :: c2 :: c3 :: r =>
      v0 ← base64_value c0;
      v1 ← base64_value c1;
      if c3 =? 61 then
        match r with
        | [] =>
            if c2 =? 61 then Some [v0 * 4 + v1 / 16]
            else v2 ← base64_value c2;
                 Some [v0 * 4 + v1 / 16; (v1 mod 16) * 16 + v2 / 4]
        | _ => None
        end
      else
        v2 ← base64_value c2;
        v3 ← base64_value c3;
        rest ← base64_decode r;
        Some ((v0 * 4 + v1 / 16) :: ((v1 mod 16) * 16 + v2 / 4)
              :: ((v2 mod 4) * 64 + v3) :: rest)
  | _ => None
  end.

Definition is_ws (u : N) : bool :=
  (u =? 32) || (u =? 9) || (u =? 10) || (u =? 13).

Fixpoint skip_ws (s : jsstring) : jsstring :=
  match s with
  | u :: r => if is_ws u then skip_ws r else s
  | [] => []
  end.

Definition hex_value (c : N) : option N :=
  if (48 <=? c) && (c <=? 57) then Some (c - 48)
  else if (97 <=? c) && (c <=? 102) then Some (c - 87)
  else if (65 <=? c) && (c <=? 70) then Some (c - 55)
  else None.

Definition simple_escape (e : N) : option N :=
  if e =? 34 then Some 34
  else if e =? 92 then Some 92
  else if e =? 47 then Some 47
  else if e =? 98 then Some 8
  else if e =? 102 then Some 12
  else if e =? 110 then Some 10
  else if e =? 114 then Some 13
  else if e =? 116 then Some 9
  else None.

(** The characters of a JSON string up to its closing quote, and the
    text after the quote. *)
Fixpoint parse_chars (s : jsstring) : option (jsstring * jsstring) :=
  match s with
  | [] => None
  | u :: r =>
      if u =? 34 then Some ([], r)
      else if u =? 92 then
        match r with
        | [] => None
        | e :: r1 =>
            if e =? 117 then
              match r1 with
              | h1 :: h2 :: h3 :: h4 :: r2 =>
                  a ← hex_value h1;
                  b ← hex_value h2;
                  c ← hex_value h3;
                  d ← hex_value h4;
                  '(t, rest) ← parse_chars r2;
                  Some ((a * 4096 + b * 256 + c * 16 + d) :: t, rest)
              | _ => None
              end
            else
              c ← simple_escape e;
              '(t, rest) ← parse_chars r1;
              Some (c :: t, rest)
        end
      else if u <? 32 then None
      else '(t, rest) ← parse_chars r; Some (u :: t, rest)
  end.

Definition expect (c : N) (s : jsstring) : option jsstring :=
  match s with
  | u :: r => if u =? c then Some r else None
  | [] => None
  end.

Definition parse_string (s : jsstring) : option (jsstring * jsstring) :=
  expect 34 s ≫= parse_chars.

(** Members [ "key" : "value" ] separated by commas, up to the closing
    brace, which must end the text.  A repeated key keeps its place and
    takes the later value, as [JSON.parse] does. *)
Fixpoint parse_members (fuel : nat) (s : jsstring) (acc : jsobject)
    : option jsobject :=
  match fuel with
  | O => None
  | S fuel' =>
      '(k, s1) ← parse_string (skip_ws s);
      s2 ← expect 58 (skip_ws s1);
      '(v, s3) ← parse_string (skip_ws s2);
      let acc' := obj_define acc k v in
      match skip_ws s3 with
      | u :: s4 =>
          if u =? 44 then parse_members fuel' s4 acc'
          else if u =? 125 then
            match skip_ws s4 with [] => Some acc' | _ => None end
          else None
      | [] => None
      end
  end.

Definition JSON_parse (s : jsstring) : option jsobject :=
  s1 ← expect 123 (skip_ws s);
  match expect 125 (skip_ws s1) with
  | Some s2 => match skip_ws s2 with [] => Some [] | _ => None end
  | None => parse_members (length s) s1 []
  end.

(** [JSON.parse(Buffer.from(blob, 'base64').toString('utf8'))]. *)
Definition decodeSession (blob : jsstring) : option jsobject :=
  bytes ← base64_decode blob;
  text ← utf8_decode bytes;
  JSON_parse text.

(** The mapping an object stands for. *)
Definition obj_map (o : jsobject) : gmap jsstring jsstring := list_to_map o.

(* ===================================================================== *)
(** * Exceptions *)
(* ===================================================================== *)

(** A thrown [Error], with its [message]. *)
Inductive exn := Error (message : jsstring).

Definition message (e : exn) : jsstring := let 'Error m := e in m.

Inductive result (A : Type) :=
| Return (a : A)
| Throw (e : exn).
Arguments Return {A} a.
Arguments Throw {A} e.

Definition rbind {A B} (m : result A) (k : A → result B) : result B :=
  match m with
  | Return a => k a
  | Throw e => Throw e
  end.

(** [try { m } catch (e) { h(e) }]. *)
Definition try_catch {A} (m : result A) (h : exn → result A) : result A :=
  match m with
  | Return a => Return a
  | Throw e => h e
  end.

Declare Scope result_scope.
Delimit Scope result_scope with result.
Notation "'let!' x := m 'in' k" := (rbind m (fun x => k))
  (at level 10, x name, m at level 100, k at level 200,
   format "'[v' 'let!'  x  :=  m  'in' '/' k ']'") : result_scope.
#[local] Open Scope result_scope.

Definition ENOENT : exn := Error (js "ENOENT: no such file or directory").
Definition ENOTDIR : exn := Error (js "ENOTDIR: not a directory").
Definition EISDIR : exn := Error (js "EISDIR: illegal operation on a directory").
Definition EEXIST : exn := Error (js "EEXIST: file already exists").

(* ===================================================================== *)
(** * The file system *)
(* ===================================================================== *)

(** A path is the list of its components below the application's
    [sessions] directory; [path.join(p, name)] with a plain name adds a
    component. *)
Abbreviation path := (list jsstring).

Definition path_join (p : path) (name : jsstring) : path := p ++ [name].

Record Stats := { isFile : bool; isDirectory : bool }.

(** The four [fs] calls of the encoder.  [existsSync] never throws
    (it answers [false] on any error); the others may. *)
Record FileSystem := {
  existsSync : path → bool;
  readdirSync : path → result (list jsstring);
  statSync : path → result Stats;
  readFileSync : path → result jsstring
}.

(** What a name in a directory leads to, as [stat] sees it (links are
    followed): a regular file with its text, a directory, something
    else that exists (a FIFO, a socket, a device; [onRead] is what
    reading it gives), or a link whose target is missing. *)
Inductive node :=
| File (content : jsstring)
| Dir (children : gmap jsstring node)
| Special (onRead : result jsstring)
| Dangling.

Fixpoint lookup_path (n : node) (p : path) : option node :=
  match p with
  | [] => Some n
  | name :: p' =>
      match n with
      | Dir children =>
          match children !! name with
          | Some n' => lookup_path n' p'
          | None => None
          end
      | _ => None
      end
  end.

(** The [fs] calls on a tree. *)
Definition tree_fs (root : node) : FileSystem := {|
  existsSync p :=
    match lookup_path root p with
    | Some (File _) | Some (Dir _) | Some (Special _) => true
    | Some Dangling | None => false
    end;
  readdirSync p :=
    match lookup_path root p with
    | Some (Dir children) => Return (map fst (map_to_list children))
    | Some (File _) | Some (Special _) => Throw ENOTDIR
    | Some Dangling | None => Throw ENOENT
    end;
  statSync p :=
    match lookup_path root p with
    | Some (File _) => Return {| isFile := true; isDirectory := false |}
    | Some (Dir _) => Return {| isFile := false; isDirectory := true |}
    | Some (Special _) => Return {| isFile := false; isDirectory := false |}
    | Some Dangling | None => Throw ENOENT
    end;
  readFileSync p :=
    match lookup_path root p with
    | Some (File content) => Return content
    | Some (Dir _) => Throw EISDIR
    | Some (Special onRead) => onRead
    | Some Dangling | None => Throw ENOENT
    end
|}.

(* ===================================================================== *)
(** * [encodeSession] *)
(* ===================================================================== *)

Definition creds_json : jsstring := Eval vm_compute in js "creds.json".

(** First and third copy: the loop [for (const file of allFiles)] with
    the [stat.isFile()] test. *)
Fixpoint collectFiles (fs : FileSystem) (sessionPath : path)
    (allFiles : list jsstring) (files : jsobject) : result jsobject :=
  match allFiles with
  | [] => Return files
  | file :: rest =>
      let filePath := path_join sessionPath file in
      let! stat := statSync fs filePath in
      if isFile stat then
        let! content := readFileSync fs filePath in
        collectFiles fs sessionPath rest (obj_set files file content)
      else collectFiles fs sessionPath rest files
  end.

(** The body of the [try] block: [None] is [null]. *)
Definition encodeSession_try (fs : FileSystem) (sessionPath : path)
    : result (option jsstring) :=
  let credsPath := path_join sessionPath creds_json in
  if negb (existsSync fs credsPath) then Return None
  else
    let! allFiles := readdirSync fs sessionPath in
    let! files := collectFiles fs sessionPath allFiles [] in
    Return (Some (encode_files files)).

Definition encodeSession (fs : FileSystem) (sessionPath : path)
    : result (option jsstring) :=
  try_catch (encodeSession_try fs sessionPath) (fun e => Return None).

(** Second copy: every entry is read, with no [stat] before. *)
Fixpoint collectFiles2 (fs : FileSystem) (sessionPath : path)
    (allFiles : list jsstring) (files : jsobject) : result jsobject :=
  match allFiles with
  | [] => Return files
  | file :: rest =>
      let filePath := path_join sessionPath file in
      let! content := readFileSync fs filePath in
      collectFiles2 fs sessionPath rest (obj_set files file content)
  end.

Definition encodeSession2_try (fs : FileSystem) (sessionPath : path)
    : result (option jsstring) :=
  let credsPath := path_join sessionPath creds_json in
  if negb (existsSync fs credsPath) then Return None
  else
    let! allFiles := readdirSync fs sessionPath in
    let! files := collectFiles2 fs sessionPath allFiles [] in
    Return (Some (encode_files files)).

Definition encodeSession2 (fs : FileSystem) (sessionPath : path)
    : result (option jsstring) :=
  try_catch (encodeSession2_try fs sessionPath) (fun e => Return None).

(* ===================================================================== *)
(** * The three copies *)
(* ===================================================================== *)

Inductive copy := Copy1 | Copy2 | Copy3.

(** [cleanPhone.length < 7] in the first and third copy, [< 10] in the
    second. *)
Definition minDigits (c : copy) : nat :=
  match c with Copy2 => 10%nat | _ => 7%nat end.

Definition encodeSessionOf (c : copy)
    : FileSystem → path → result (option jsstring) :=
  match c with Copy2 => encodeSession2 | _ => encodeSession end.

Definition msgPhoneRequired (c : copy) : jsstring :=
  match c with
  | Copy2 => js "Phone number required"
  | _ => js "Phone number is required"
  end.

Definition msgPhoneInvalid (c : copy) : jsstring :=
  match c with
  | Copy1 => js "Invalid phone number — must include country code"
  | Copy2 => js "Invalid phone number"
  | Copy3 => js "Invalid phone number — include country code"
  end.

Definition msgPairingFailed (c : copy) (errMessage : jsstring) : jsstring :=
  match c with
  | Copy2 => js "Failed to get pairing code. Check your number!"
  | _ => js "Failed to get pairing code: " ++ errMessage
  end.

Definition msgServerError (c : copy) (errMessage : jsstring) : jsstring :=
  match c with
  | Copy2 => errMessage
  | _ => js "Server error: " ++ errMessage
  end.

Definition msgNotConnected (c : copy) (status : jsstring) : jsstring :=
  match c with
  | Copy1 => js "Not connected yet — status: " ++ status
  | _ => js "Not connected yet"
  end.

Definition msgNotReady (c : copy) : jsstring :=
  match c with
  | Copy1 => js "Session string not ready yet — try again in a few seconds"
  | _ => js "Session string not ready yet"
  end.

(* ===================================================================== *)
(** * Sessions, the world, effects *)
(* ===================================================================== *)

(** A record of the [sessions] map.  [sock] names the socket object the
    record holds; [sessionString = None] is [null]. *)
Record Session := {
  sock : nat;
  phone : jsstring;
  status : jsstring;
  sessionString : option jsstring;
  createdAt : Z
}.

Definition pending : jsstring := Eval vm_compute in js "pending".
Definition connected : jsstring := Eval vm_compute in js "connected".
Definition not_found : jsstring := Eval vm_compute in js "not_found".

(** What the handlers act on: the [sessions] map, the content of the
    [sessions] directory on disk (one entry per session id), and the
    sockets on which [end()] was called, in call order. *)
Record World := {
  sessions : gmap jsstring Session;
  disk : gmap jsstring node;
  endCalls : list nat
}.

Definition initial : World :=
  {| sessions := ∅; disk := ∅; endCalls := [] |}.

(** What lies outside the program and is fixed while it runs: for
    which session directories [removeSync] and [ensureDirSync] fail, and
    for which sockets [end()] throws. *)
Record Env := {
  removeSync_error : jsstring → option exn;
  ensureDirSync_error : jsstring → option exn;
  end_error : nat → option exn
}.

(** A computation on the world that returns or throws; what it did to
    the world before throwing stays done. *)
Definition Eff (A : Type) : Type := World → result A * World.

Definition eret {A} (a : A) : Eff A := fun w => (Return a, w).

Definition ebind {A B} (m : Eff A) (k : A → Eff B) : Eff B :=
  fun w =>
    match m w with
    | (Return a, w') => k a w'
    | (Throw e, w') => (Throw e, w')
    end.

Definition etry {A} (m : Eff A) (h : exn → Eff A) : Eff A :=
  fun w =>
    match m w with
    | (Return a, w') => (Return a, w')
    | (Throw e, w') => h e w'
    end.

Definition lift {A} (r : result A) : Eff A := fun w => (r, w).

Notation "'do!' x := m 'in' k" := (ebind m (fun x => k))
  (at level 10, x name, m at level 100, k at level 200,
   format "'[v' 'do!'  x  :=  m  'in' '/' k ']'") : result_scope.

(** A string that [path.join] takes as the name of one entry of the
    directory it is joined to: not empty, not [.] or [..], and without
    a separator ([/], and [\] on Windows) or a NUL. *)
Definition is_path_component (s : jsstring) : bool :=
  negb (bool_decide (s = []))
  && negb (bool_decide (s = [46]))
  && negb (bool_decide (s = [46; 46]))
  && forallb (fun u => negb ((u =? 47) || (u =? 92) || (u =? 0))) s.

(** [path.join(__dirname, 'sessions', sessionId)], as a path below the
    [sessions] directory, for a [sessionId] that is one path component.
    The program builds it from the ids of [generateId] only, which are
    ([generateId_component]); on another string [path.join] may lead to
    the [sessions] directory itself or out of it, and this definition
    does not say where. *)
Definition sessionPath (sessionId : jsstring) : path := [sessionId].

Definition fs_of (w : World) : FileSystem := tree_fs (Dir (disk w)).

Definition fs_existsSync (p : path) : Eff bool :=
  fun w => (Return (existsSync (fs_of w) p), w).

Definition sessions_get (sessionId : jsstring) : Eff (option Session) :=
  fun w => (Return (sessions w !! sessionId), w).

Definition sessions_set (sessionId : jsstring) (s : Session) : Eff unit :=
  fun w =>
    (Return (),
     {| sessions := <[sessionId := s]> (sessions w);
        disk := disk w; endCalls := endCalls w |}).

Definition sessions_delete (sessionId : jsstring) : Eff unit :=
  fun w =>
    (Return (),
     {| sessions := delete sessionId (sessions w);
        disk := disk w; endCalls := endCalls w |}).

(** [fse.removeSync(sessionPath)]: the directory and all below it. *)
Definition removeSync (env : Env) (sessionId : jsstring) : Eff unit :=
  fun w =>
    match removeSync_error env sessionId with
    | Some e => (Throw e, w)
    | None =>
        (Return (),
         {| sessions := sessions w;
            disk := delete sessionId (disk w); endCalls := endCalls w |})
    end.

(** [fse.ensureDirSync(sessionPath)]: creates the directory unless it
    is there; a non-directory in its place is an error. *)
Definition ensureDirSync (env : Env) (sessionId : jsstring) : Eff unit :=
  fun w =>
    match ensureDirSync_error env sessionId with
    | Some e => (Throw e, w)
    | None =>
        match disk w !! sessionId with
        | Some (Dir _) => (Return (), w)
        | Some _ => (Throw EEXIST, w)
        | None =>
            (Return (),
             {| sessions := sessions w;
                disk := <[sessionId := Dir ∅]> (disk w);
                endCalls := endCalls w |})
        end
    end.

(** [session.sock.end()]. *)
Definition sock_end (env : Env) (k : nat) : Eff unit :=
  fun w =>
    (match end_error env k with Some e => Throw e | None => Return () end,
     {| sessions := sessions w; disk := disk w;
        endCalls := endCalls w ++ [k] |}).

(* ===================================================================== *)
(** * [generateId], [cleanupSession] *)
(* ===================================================================== *)

(** ['ALMEER_' + Math.random().toString(36).substring(2, 15).toUpperCase()];
    [randomTail] is what follows the prefix. *)
Definition generateId (randomTail : jsstring) : jsstring :=
  js "ALMEER_" ++ randomTail.

(** First and third copy. *)
Definition cleanupSession (env : Env) (sessionId : jsstring) : Eff unit :=
  etry
    (do! there := fs_existsSync (sessionPath sessionId) in
     do! _ := (if there : bool then removeSync env sessionId else eret ()) in
     do! session := sessions_get sessionId in
     do! _ := match session with
              | Some s => etry (sock_end env (sock s)) (fun e => eret ())
              | None => eret ()
              end in
     sessions_delete sessionId)
    (fun e => eret ()).

(** Second copy: [session.sock.end()] stands directly in the outer
    [try]. *)
Definition cleanupSession2 (env : Env) (sessionId : jsstring) : Eff unit :=
  etry
    (do! there := fs_existsSync (sessionPath sessionId) in
     do! _ := (if there : bool then removeSync env sessionId else eret ()) in
     do! session := sessions_get sessionId in
     do! _ := match session with
              | Some s => sock_end env (sock s)
              | None => eret ()
              end in
     sessions_delete sessionId)
    (fun e => eret ()).

Definition cleanupSessionOf (c : copy) : Env → jsstring → Eff unit :=
  match c with Copy2 => cleanupSession2 | _ => cleanupSession end.

(* ===================================================================== *)
(** * Requests and responses *)
(* ===================================================================== *)

(** A value of a parsed request body or of a response body.  [VObject]
    stands for any array or object; numbers are shown by integers. *)
Inductive jsvalue :=
| VUndefined
| VNull
| VBool (b : bool)
| VNumber (n : Z)
| VString (s : jsstring)
| VObject.

(** [!v] is [negb (truthy v)]. *)
Definition truthy (v : jsvalue) : bool :=
  match v with
  | VUndefined | VNull => false
  | VBool b => b
  | VNumber n => negb (n =? 0)%Z
  | VString s => negb (bool_decide (s = []))
  | VObject => true
  end.

(** What [res.status(code).json(body)] sends; [res.json(body)] sends it
    with status 200. *)
Record Response := {
  httpStatus : N;
  body : list (string * jsvalue)
}.

Definition field (name : string) (r : Response) : option jsvalue :=
  snd <$> find (fun kv => bool_decide (fst kv = name)) (body r).

Definition TypeError_replace : exn :=
  Error (js "phone.replace is not a function").

(** [phone.replace(/[^0-9]/g, '')]: only a string has [replace]. *)
Definition phone_replace (phone : jsvalue) : result jsstring :=
  match phone with
  | VString s => Return (stripNonDigits s)
  | _ => Throw TypeError_replace
  end.

(* ===================================================================== *)
(** * [POST /api/pair] *)
(* ===================================================================== *)

(** What [sock.requestPairingCode] resolves to: a string by the
    library's declaration; [null] and [undefined] are the values the
    [?.] of the handler is written for. *)
Inductive pairing_code :=
| CodeString (s : jsstring)
| CodeNull
| CodeUndefined.

(** What the calls into the messaging library, the clock and the random
    generator give during one request. *)
Record PairOracle := {
  randomTail : jsstring;
  authState : result unit;
  latestVersion : result unit;
  newSocket : result nat;
  now : Z;
  pairingCode : result pairing_code
}.

(** A string that may be [null], as a value. *)
Definition optional_string (o : option jsstring) : jsvalue :=
  match o with Some s => VString s | None => VNull end.

Definition code_string (code : pairing_code) : option jsstring :=
  match code with CodeString s => Some s | _ => None end.

(** [code?.match(/.{1,4}/g)?.join('-') || code] as the value sent in
    the [code] field.  For [null] and [undefined] the optional chain
    gives [undefined], and [||] passes the code on as it is: [res.json]
    sends [code: null] for the one and leaves the field out for the
    other. *)
Definition formattedCode (code : pairing_code) : jsvalue :=
  match code with
  | CodeString s => optional_string (formatCode (Some s))
  | CodeNull => VNull
  | CodeUndefined => VUndefined
  end.

(** The handler, from [const { phone } = req.body] to its response,
    run without another callback in between its [await]s ([pair_is_a_run]
    relates it to the event sequences below, where callbacks interleave).
    [Throw] is an exception that leaves the handler. *)
Definition pair (c : copy) (env : Env) (o : PairOracle) (phone : jsvalue)
    : Eff Response :=
  if negb (truthy phone) then
    eret {| httpStatus := 400;
            body := [("success", VBool false);
                     ("message", VString (msgPhoneRequired c))] |}
  else
    do! cleanPhone := lift (phone_replace phone) in
    if (length cleanPhone <? minDigits c)%nat then
      eret {| httpStatus := 400;
              body := [("success", VBool false);
                       ("message", VString (msgPhoneInvalid c))] |}
    else
      let sessionId := generateId (randomTail o) in
      etry
        (do! _ := ensureDirSync env sessionId in
         do! _ := lift (authState o) in
         do! _ := lift (latestVersion o) in
         do! sock := lift (newSocket o) in
         do! _ := sessions_set sessionId
                    {| sock := sock; phone := cleanPhone; status := pending;
                       sessionString := None; createdAt := now o |} in
         do! requested :=
           etry (do! code := lift (pairingCode o) in eret (inl code))
                (fun err =>
                   do! _ := cleanupSessionOf c env sessionId in
                   eret (inr {| httpStatus := 500;
                                body := [("success", VBool false);
                                         ("message",
                                          VString (msgPairingFailed c (message err)))] |})) in
         match requested with
         | inr response => eret response
         | inl code =>
             eret {| httpStatus := 200;
                     body := [("success", VBool true);
                              ("code", formattedCode code);
                              ("sessionId", VString sessionId);
                              ("message", VString (js "Pairing code generated!"))] |}
         end)
        (fun err =>
           do! _ := cleanupSessionOf c env sessionId in
           eret {| httpStatus := 500;
                   body := [("success", VBool false);
                            ("message", VString (msgServerError c (message err)))] |}).

(* ===================================================================== *)
(** * The callbacks registered by a successful pairing request *)
(* ===================================================================== *)

(** What the ['open'] branch of ['connection.update'] does once its
    two waits are over, from [const sessionString =
    encodeSession(sessionPath)] to [sessions.set]; it runs without
    another callback in between.  The whole branch is [onOpen] below. *)
Definition encodeAndStore (c : copy) (sessionId : jsstring) : Eff unit :=
  do! sessionString :=
    (fun w => (encodeSessionOf c (fs_of w) (sessionPath sessionId), w)) in
  do! session := sessions_get sessionId in
  match session with
  | Some s =>
      sessions_set sessionId
        {| sock := sock s; phone := phone s; status := connected;
           sessionString := sessionString; createdAt := createdAt s |}
  | None => eret ()
  end.

(** [DisconnectReason.loggedOut]. *)
Definition loggedOut : Z := 401.

(** ['connection.update'] with [connection === 'close']; [code] is the
    Boom status code of the disconnect, or 500. *)
Definition onClose (c : copy) (env : Env) (sessionId : jsstring) (code : Z)
    : Eff unit :=
  if (code =? loggedOut)%Z then cleanupSessionOf c env sessionId else eret ().

(** The five minute timer. *)
Definition onWatchdog (c : copy) (env : Env) (sessionId : jsstring) : Eff unit :=
  do! s := sessions_get sessionId in
  match s with
  | Some s' =>
      if bool_decide (status s' = pending)
      then cleanupSessionOf c env sessionId
      else eret ()
  | None => eret ()
  end.

(* ===================================================================== *)
(** * [GET /api/status/:sessionId], [GET /api/session/:sessionId] *)
(* ===================================================================== *)

Definition statusHandler (w : World) (sessionId : jsstring) : Response :=
  match sessions w !! sessionId with
  | None =>
      {| httpStatus := 200; body := [("status", VString not_found)] |}
  | Some session =>
      {| httpStatus := 200; body := [("status", VString (status session))] |}
  end.

(** [!session.sessionString]: [null] and the empty string are falsy. *)
Definition string_missing (s : option jsstring) : bool :=
  match s with
  | None => true
  | Some t => bool_decide (t = [])
  end.

Definition sessionHandler (c : copy) (w : World) (sessionId : jsstring)
    : Response :=
  match sessions w !! sessionId with
  | None =>
      {| httpStatus := 404;
         body := [("success", VBool false);
                  ("message", VString (js "Session not found or expired"))] |}
  | Some session =>
      if negb (bool_decide (status session = connected)) then
        {| httpStatus := 400;
           body := [("success", VBool false);
                    ("message", VString (msgNotConnected c (status session)))] |}
      else if string_missing (sessionString session) then
        {| httpStatus := 500;
           body := [("success", VBool false);
                    ("message", VString (msgNotReady c))] |}
      else
        {| httpStatus := 200;
           body := [("success", VBool true);
                    ("sessionId", VString sessionId);
                    ("sessionString", optional_string (sessionString session))] |}
  end.

(* ===================================================================== *)
(** * The lifecycle as a sequence of events *)
(* ===================================================================== *)

(** Between two [await]s a handler runs alone; what happens to the
    world is a sequence of such runs, in any order the event loop
    delivers them.  Each event below is one of the places where the
    program writes to the [sessions] map or to the disk, or a change of
    the disk made by the messaging library, which writes the credential
    files.  [Opened] is an open branch going on after its waits
    ([encodeAndStore]); a [saveCreds()] that writes is a [DiskWrite],
    and one that rejects ends its callback and is no event. *)
Inductive event :=
| EnsureDir (sessionId : jsstring)
| Register (sessionId : jsstring) (sock : nat) (phone : jsstring) (now : Z)
| Cleanup (sessionId : jsstring)
| Watchdog (sessionId : jsstring)
| Opened (sessionId : jsstring)
| Closed (sessionId : jsstring) (code : Z)
| DiskWrite (newDisk : gmap jsstring node).

Definition action (c : copy) (env : Env) (e : event) : Eff unit :=
  match e with
  | EnsureDir sessionId => ensureDirSync env sessionId
  | Register sessionId sock phone now =>
      sessions_set sessionId
        {| sock := sock; phone := phone; status := pending;
           sessionString := None; createdAt := now |}
  | Cleanup sessionId => cleanupSessionOf c env sessionId
  | Watchdog sessionId => onWatchdog c env sessionId
  | Opened sessionId => encodeAndStore c sessionId
  | Closed sessionId code => onClose c env sessionId code
  | DiskWrite newDisk =>
      fun w => (Return (),
                {| sessions := sessions w; disk := newDisk;
                   endCalls := endCalls w |})
  end.

Definition step (c : copy) (env : Env) (w : World) (e : event) : World :=
  snd (action c env e w).

Definition run (c : copy) (env : Env) (trace : list event) (w : World) : World :=
  foldl (step c env) w trace.

(** The ['open'] branch of ['connection.update'] as a whole.  It first
    awaits [saveCreds()], the hook of the library that writes the
    credentials into the session directory, and then three seconds (two
    in the second copy).  While it waits, other callbacks run and the
    library writes to the disk: [meanwhile], in the order the event loop
    delivers them, the write of [saveCreds] among them as a
    [DiskWrite].  [saved] is how [saveCreds()] settles: when it rejects,
    the callback ends at the [await] with that error and nothing after
    it runs (nobody handles the rejection: the runtime reports it or,
    by its default since Node 15, stops the process, which is outside
    this model); otherwise the branch goes on with [encodeAndStore].
    The timer it sets at its end fires as a later [Cleanup]. *)
Definition onOpen (c : copy) (env : Env) (sessionId : jsstring)
    (saved : result unit) (meanwhile : list event) : Eff unit :=
  do! _ := (fun w => (saved, run c env meanwhile w)) in
  encodeAndStore c sessionId.

(** The outcome of the encoding step last applied to each live record:
    absent while none was applied since the record was made. *)
Definition track (c : copy) (env : Env)
    (a : World * gmap jsstring (option jsstring)) (e : event)
    : World * gmap jsstring (option jsstring) :=
  let w := fst a in
  let w' := step c env w e in
  let forget (sessionId : jsstring) :=
    match sessions w' !! sessionId with
    | Some _ => snd a
    | None => delete sessionId (snd a)
    end in
  (w',
   match e with
   | Register sessionId _ _ _ => delete sessionId (snd a)
   | Opened sessionId =>
       match sessions w !! sessionId,
             encodeSessionOf c (fs_of w) (sessionPath sessionId) with
       | Some _, Return outcome => <[sessionId := outcome]> (snd a)
       | _, _ => snd a
       end
   | Cleanup sessionId | Watchdog sessionId | Closed sessionId _ =>
       forget sessionId
   | EnsureDir _ | DiskWrite _ => snd a
   end).

Definition audit (c : copy) (env : Env) (trace : list event)
    : World * gmap jsstring (option jsstring) :=
  foldl (track c env) (initial, ∅) trace.

(* ===================================================================== *)
(** * Notions the properties are stated with *)
(* ===================================================================== *)

(** The digits of the [phone] field of a request body: those of the
    string, none when the field is missing or [null]; a value of another
    type has no characters to strip. *)
Definition phoneDigits (phone : jsvalue) : option jsstring :=
  match phone with
  | VString s => Some (stripNonDigits s)
  | VUndefined | VNull => Some []
  | _ => None
  end.

(** A code cut from the left into groups of four code units, the last
    group taking what is left. *)
Fixpoint chunk4 (s : jsstring) : list jsstring :=
  match s with
  | [] => []
  | a :: b :: c :: d :: r => [a; b; c; d] :: chunk4 r
  | short => [short]
  end.

(** The regular files directly in a directory, by name. *)
Definition regular_files (children : gmap jsstring node)
    : gmap jsstring jsstring :=
  omap (fun n => match n with File content => Some content | _ => None end)
       children.

(** A record agrees with the outcome of its last encoding step: while
    no step was applied it is pending with a [null] string; after one it
    is connected and its string is what the step returned. *)
Definition record_agrees (outcomes : gmap jsstring (option jsstring))
    (sessionId : jsstring) (s : Session) : Prop :=
  match outcomes !! sessionId with
  | None => status s = pending ∧ sessionString s = None
  | Some outcome =>
      status s = connected ∧ sessionString s = outcome ∧ outcome ≠ Some []
  end.

Definition consistent (a : World * gmap jsstring (option jsstring)) : Prop :=
  ∀ sessionId s,
    sessions (fst a) !! sessionId = Some s →
    record_agrees (snd a) sessionId s.

(** The status the specification also lists; no record is given it. *)
Definition closed : jsstring := Eval vm_compute in js "closed".

(** An environment in which nothing fails, and the answers of a
    pairing request that goes through. *)
Definition calm : Env :=
  {| removeSync_error := fun _ => None;
     ensureDirSync_error := fun _ => None;
     end_error := fun _ => None |}.

Definition smooth (code : pairing_code) : PairOracle :=
  {| randomTail := js "K3J9X0QZ1AB";
     authState := Return ();
     latestVersion := Return ();
     newSocket := Return 1%nat;
     now := 1700000000000%Z;
     pairingCode := Return code |}.

(** A session directory as the library leaves it after a pairing: the
    credentials file and one key file. *)
Definition paired_directory : gmap jsstring node :=
  <[creds_json := File (js "{}")]> (<[js "pre-key-1.json" := File (js "{}")]> ∅).

(** A run that pairs a device: the directory is made, the record is
    registered, the library writes the credentials, the connection
    opens. *)
Definition pairing_run (sessionId : jsstring) : list event :=
  [EnsureDir sessionId;
   Register sessionId 1%nat (js "1234567") 1700000000000%Z;
   DiskWrite (<[sessionId := Dir paired_directory]> ∅);
   Opened sessionId].

(** A string in which every surrogate is half of a pair and every code
    unit is below 2^16. *)
Fixpoint well_formed (s : jsstring) : bool :=
  match s with
  | [] => true
  | u :: r =>
      if is_high_surrogate u then
        match r with
        | v :: r' => is_low_surrogate v && well_formed r'
        | [] => false
        end
      else negb (is_low_surrogate u) && (u <? 65536) && well_formed r
  end.

(** Every code unit is below 2^16. *)
Definition bounded (s : jsstring) : Prop := Forall (fun u => u < 65536) s.

(** One member of the serialised object: ["key":"value"]. *)
Definition member (kv : jsstring * jsstring) : jsstring :=
  QuoteJSONString (fst kv) ++ 58 :: QuoteJSONString (snd kv).

(** What the loop of the first copy has gathered after visiting
    [names] in a directory with the given children. *)
Definition gather (children : gmap jsstring node) (files : jsobject)
    (names : list jsstring) : jsobject :=
  foldl (fun acc name =>
           match children !! name with
           | Some (File content) => obj_set acc name content
           | _ => acc
           end) files names.

(** The names and texts of the regular files of a directory are made of
    code units. *)
Definition directory_bounded (children : gmap jsstring node) : Prop :=
  ∀ name content,
    children !! name = Some (File content) → bounded name ∧ bounded content.

(** [lia] with quotients and remainders by constants. *)
Ltac dlia := zify; Z.to_euclidean_division_equations; lia.

(** The directory of the round-trip property: the two files [a] and
    [b]; and the same directory with the credentials file. *)
Definition directory_ab : gmap jsstring node :=
  <[js "a" := File (js "x")]> (<[js "b" := File (js "y")]> ∅).

Definition directory_ab_creds (credentials : jsstring) : gmap jsstring node :=
  <[creds_json := File credentials]> directory_ab.

(** A session directory with a subdirectory, and one with a file named
    [__proto__]. *)
Definition directory_with_subdirectory : gmap jsstring node :=
  <[creds_json := File (js "{}")]>
    (<[js "keys" := Dir (<[js "pre-key-1.json" := File (js "{}")]> ∅)]> ∅).

Definition directory_with_proto : gmap jsstring node :=
  <[creds_json := File (js "{}")]> (<[proto_key := File (js "x")]> ∅).

(** The session an event writes to in the session map, if any. *)
Definition event_session (e : event) : option jsstring :=
  match e with
  | Register sessionId _ _ _ | Cleanup sessionId | Watchdog sessionId
  | Opened sessionId | Closed sessionId _ => Some sessionId
  | EnsureDir _ | DiskWrite _ => None
  end.

(** An environment in which [end()] throws on every socket. *)
Definition end_throws : Env :=
  {| removeSync_error := fun _ => None;
     ensureDirSync_error := fun _ => None;
     end_error := fun _ => Some (Error (js "Connection Closed")) |}.

(** [str.substring(start, end)]: both indices are clamped to the length
    and taken in order. *)
Definition substring (s : jsstring) (a b : nat) : jsstring :=
  let a' := Nat.min a (length s) in
  let b' := Nat.min b (length s) in
  take (Nat.max a' b' - Nat.min a' b') (drop (Nat.min a' b') s).

(** [str.toUpperCase()] on ASCII text, which is all that
    [Number.prototype.toString(36)] writes: the letters [a]-[z] become
    [A]-[Z]. *)
Definition toUpperCase (s : jsstring) : jsstring :=
  map (fun u => if (97 <=? u) && (u <=? 122) then u - 32 else u) s.

Definition is_base36_digit (u : N) : bool :=
  is_digit u || ((97 <=? u) && (u <=? 122)).

(** What [Math.random().toString(36)] can be: ["0"], or ["0."] and
    base-36 digits. *)
Definition random_text (text : jsstring) : Prop :=
  text = [48]
  ∨ ∃ digits, text = 48 :: 46 :: digits
              ∧ Forall (fun u => is_base36_digit u = true) digits.

(** [Math.random().toString(36).substring(2, 15).toUpperCase()], from the
    text of the random number. *)
Definition randomTailOf (randomText : jsstring) : jsstring :=
  toUpperCase (substring randomText 2 15).

(** The record [sessions.set] stores in [POST /api/pair]. *)
Definition fresh_record (k : nat) (cleanPhone : jsstring) (t : Z) : Session :=
  {| sock := k; phone := cleanPhone; status := pending;
     sessionString := None; createdAt := t |}.

(** A character of a base64 text: of the alphabet, or the padding. *)
Definition is_base64_char (u : N) : bool :=
  ((65 <=? u) && (u <=? 90)) || ((97 <=? u) && (u <=? 122))
  || ((48 <=? u) && (u <=? 57)) || (u =? 43) || (u =? 47) || (u =? 61).

(** The three responses of [POST /api/pair] once the phone check is
    passed. *)
Definition response_generated (sessionId : jsstring) (code : pairing_code)
    : Response :=
  {| httpStatus := 200;
     body := [("success", VBool true);
              ("code", formattedCode code);
              ("sessionId", VString sessionId);
              ("message", VString (js "Pairing code generated!"))] |}.

Definition response_failed (text : jsstring) : Response :=
  {| httpStatus := 500;
     body := [("success", VBool false); ("message", VString text)] |}.

(** The world after [sessions.set] in [POST /api/pair]. *)
Definition registered (sessionId : jsstring) (s : Session) (w : World) : World :=
  {| sessions := <[sessionId := s]> (sessions w);
     disk := disk w; endCalls := endCalls w |}.

(** The code units of a string that [.] matches, in their order. *)
Definition dotted (s : jsstring) : jsstring :=
  filter (fun u => is_line_terminator u = false) s.

(** A formatted code with the separators taken out. *)
Definition without_dashes (s : jsstring) : jsstring :=
  filter (fun u => u ≠ 45) s.

(* ===================================================================== *)
(** * Properties: the phone check of [POST /api/pair] *)
(* ===================================================================== *)

Lemma stripNonDigits_only_digits (s : jsstring) :
  Forall (fun u => 48 <= u <= 57) (stripNonDigits s).
Proof.
  unfold stripNonDigits. induction s as [|u s IH]; simpl; [constructor|].
  unfold filter at 1; simpl. fold (filter is_digit s).
  destruct (decide (is_digit u)) as [Hd|Hd]; [|exact IH].
  constructor; [|exact IH].
  unfold is_digit in Hd. apply Is_true_true in Hd.
  apply andb_true_iff in Hd as [H1 H2].
  apply N.leb_le in H1, H2. lia.
Qed.

Lemma stripNonDigits_length (s : jsstring) :
  (length (stripNonDigits s) ≤ length s)%nat.
Proof. apply length_filter. Qed.

Lemma pair_missing_phone (c : copy) (env : Env) (o : PairOracle)
    (phone : jsvalue) (w : World) :
  truthy phone = false →
  pair c env o phone w =
    (Return {| httpStatus := 400;
               body := [("success", VBool false);
                        ("message", VString (msgPhoneRequired c))] |}, w).
Proof. intros H. unfold pair. rewrite H. reflexivity. Qed.

Lemma pair_short_phone (c : copy) (env : Env) (o : PairOracle)
    (s : jsstring) (w : World) :
  s ≠ [] →
  (length (stripNonDigits s) < minDigits c)%nat →
  pair c env o (VString s) w =
    (Return {| httpStatus := 400;
               body := [("success", VBool false);
                        ("message", VString (msgPhoneInvalid c))] |}, w).
Proof.
  intros Hs Hlen. unfold pair. simpl.
  rewrite bool_decide_eq_false_2 by exact Hs. simpl.
  unfold ebind, lift at 1. simpl.
  apply Nat.ltb_lt in Hlen. rewrite Hlen. reflexivity.
Qed.

(** A truthy [phone] that is not a string has no [replace]: the call
    throws before the [try] block is entered, and the world is as it was. *)
Lemma pair_phone_not_a_string (c : copy) (env : Env) (o : PairOracle)
    (phone : jsvalue) (w : World) :
  truthy phone = true →
  (∀ s, phone ≠ VString s) →
  pair c env o phone w = (Throw TypeError_replace, w).
Proof.
  intros Ht Hs. unfold pair. rewrite Ht. simpl.
  destruct phone; try reflexivity. exfalso. by eapply Hs.
Qed.

(** C1. In each copy of the handler, a request whose [phone] has fewer
    than 7 digits once the non-digits are stripped (a missing [phone]
    has none) is answered with HTTP 400 and [success: false], and the
    world after the handler is the world before it: no record in the
    session map, no directory on disk, no call on a socket. *)
Theorem pair_rejects_short_phone (c : copy) (env : Env) (o : PairOracle)
    (phone : jsvalue) (digits : jsstring) (w : World) :
  phoneDigits phone = Some digits →
  (length digits < 7)%nat →
  ∃ r, pair c env o phone w = (Return r, w)
       ∧ httpStatus r = 400
       ∧ field "success" r = Some (VBool false).
Proof.
  intros Hd Hlen.
  destruct phone; simpl in Hd; try discriminate.
  - eexists. split; [apply pair_missing_phone; reflexivity|]. by split.
  - eexists. split; [apply pair_missing_phone; reflexivity|]. by split.
  - injection Hd as <-.
    destruct (decide (s = [])) as [->|Hne].
    + eexists. split; [apply pair_missing_phone; reflexivity|]. by split.
    + eexists. split.
      * apply pair_short_phone; [exact Hne|].
        destruct c; simpl; lia.
      * by split.
Qed.

Lemma pair_rejects_short_phone_witness :
  ∃ r, pair Copy1 {| removeSync_error := fun _ => None;
                     ensureDirSync_error := fun _ => None;
                     end_error := fun _ => None |}
            {| randomTail := js "K3J9X0QZ1AB"; authState := Return ();
               latestVersion := Return (); newSocket := Return 1%nat;
               now := 0%Z; pairingCode := Return (CodeString (js "ABCD1234")) |}
            (VString (js "+1 (23) 45")) initial = (Return r, initial)
       ∧ httpStatus r = 400
       ∧ field "success" r = Some (VBool false).
Proof.
  apply (pair_rejects_short_phone Copy1 _ _ (VString (js "+1 (23) 45"))
           (js "12345")).
  - reflexivity.
  - vm_compute. lia.
Defined.

(* ===================================================================== *)
(** * Properties: [encodeSession] never throws *)
(* ===================================================================== *)

Lemma encodeSession_catches (fs : FileSystem) (p : path) :
  encodeSession fs p =
    Return (match encodeSession_try fs p with
            | Return v => v
            | Throw _ => None
            end).
Proof. unfold encodeSession. by destruct (encodeSession_try fs p). Qed.

Lemma encodeSession2_catches (fs : FileSystem) (p : path) :
  encodeSession2 fs p =
    Return (match encodeSession2_try fs p with
            | Return v => v
            | Throw _ => None
            end).
Proof. unfold encodeSession2. by destruct (encodeSession2_try fs p). Qed.

(** A failing [statSync] anywhere in the listing makes the loop of the
    first copy throw. *)
Lemma collectFiles_stat_failure (fs : FileSystem) (p : path)
    (names : list jsstring) (name : jsstring) (e : exn) (files : jsobject) :
  name ∈ names →
  statSync fs (path_join p name) = Throw e →
  ∃ e', collectFiles fs p names files = Throw e'.
Proof.
  intros Hin Hstat. revert files.
  induction names as [|n names IH]; intros files; [by apply elem_of_nil in Hin|].
  simpl. apply elem_of_cons in Hin as [<-|Hin].
  - rewrite Hstat. simpl. eauto.
  - destruct (statSync fs (path_join p n)) as [st|e0]; simpl; [|eauto].
    destruct (isFile st); [|by apply IH].
    destruct (readFileSync fs (path_join p n)); simpl; [by apply IH|eauto].
Qed.

(** A failing [readFileSync] on an entry that [stat] calls a regular
    file makes the loop of the first copy throw. *)
Lemma collectFiles_read_failure (fs : FileSystem) (p : path)
    (names : list jsstring) (name : jsstring) (st : Stats) (e : exn)
    (files : jsobject) :
  name ∈ names →
  statSync fs (path_join p name) = Return st →
  isFile st = true →
  readFileSync fs (path_join p name) = Throw e →
  ∃ e', collectFiles fs p names files = Throw e'.
Proof.
  intros Hin Hstat Hfile Hread. revert files.
  induction names as [|n names IH]; intros files; [by apply elem_of_nil in Hin|].
  simpl. apply elem_of_cons in Hin as [<-|Hin].
  - rewrite Hstat. simpl. rewrite Hfile, Hread. simpl. eauto.
  - destruct (statSync fs (path_join p n)) as [st0|e0]; simpl; [|eauto].
    destruct (isFile st0); [|by apply IH].
    destruct (readFileSync fs (path_join p n)); simpl; [by apply IH|eauto].
Qed.

(** In the second copy every entry is read. *)
Lemma collectFiles2_read_failure (fs : FileSystem) (p : path)
    (names : list jsstring) (name : jsstring) (e : exn) (files : jsobject) :
  name ∈ names →
  readFileSync fs (path_join p name) = Throw e →
  ∃ e', collectFiles2 fs p names files = Throw e'.
Proof.
  intros Hin Hread. revert files.
  induction names as [|n names IH]; intros files; [by apply elem_of_nil in Hin|].
  simpl. apply elem_of_cons in Hin as [<-|Hin].
  - rewrite Hread. simpl. eauto.
  - destruct (readFileSync fs (path_join p n)); simpl; [by apply IH|eauto].
Qed.

Lemma encodeSessionOf_catches (c : copy) (fs : FileSystem) (p : path) :
  ∃ v, encodeSessionOf c fs p = Return v.
Proof.
  destruct c; simpl;
    rewrite ?encodeSession_catches, ?encodeSession2_catches; eauto.
Qed.

(** C2. Whatever the file system answers, each copy of [encodeSession]
    returns and does not throw.  It returns [null] when [creds.json] is
    absent, when listing the directory fails, when [stat] fails on an
    entry (the copies that call it), and when reading an entry fails. *)
Theorem encodeSession_never_throws (c : copy) (fs : FileSystem) (p : path) :
  (∃ v, encodeSessionOf c fs p = Return v)
  ∧ (existsSync fs (path_join p creds_json) = false →
     encodeSessionOf c fs p = Return None)
  ∧ (∀ e, readdirSync fs p = Throw e →
          encodeSessionOf c fs p = Return None)
  ∧ (∀ names name e,
       readdirSync fs p = Return names → name ∈ names →
       c ≠ Copy2 →
       statSync fs (path_join p name) = Throw e →
       encodeSessionOf c fs p = Return None)
  ∧ (∀ names name e,
       readdirSync fs p = Return names → name ∈ names →
       (c = Copy2
        ∨ ∃ st, statSync fs (path_join p name) = Return st ∧ isFile st = true) →
       readFileSync fs (path_join p name) = Throw e →
       encodeSessionOf c fs p = Return None).
Proof.
  split; [apply encodeSessionOf_catches|].
  split.
  { intros Hex. destruct c; simpl;
      rewrite ?encodeSession_catches, ?encodeSession2_catches;
      unfold encodeSession_try, encodeSession2_try; by rewrite Hex. }
  split.
  { intros e Hdir. destruct c; simpl;
      rewrite ?encodeSession_catches, ?encodeSession2_catches;
      unfold encodeSession_try, encodeSession2_try;
      destruct (existsSync fs (path_join p creds_json)); simpl;
      by rewrite ?Hdir. }
  split.
  { intros names name e Hdir Hin Hc Hstat.
    destruct (collectFiles_stat_failure fs p names name e [] Hin Hstat)
      as [e' He'].
    destruct c; [|done|]; simpl; rewrite encodeSession_catches;
      unfold encodeSession_try;
      destruct (existsSync fs (path_join p creds_json)); simpl; try done;
      by rewrite Hdir; simpl; rewrite He'. }
  intros names name e Hdir Hin Hcase Hread.
  assert (c ≠ Copy2 → ∃ e', collectFiles fs p names [] = Throw e') as H1.
  { intros Hc. destruct Hcase as [->|(st & Hst & Hfile)]; [done|].
    by eapply collectFiles_read_failure. }
  destruct (collectFiles2_read_failure fs p names name e [] Hin Hread)
    as [e2 He2].
  destruct c; simpl.
  - destruct H1 as [e' He']; [done|]. rewrite encodeSession_catches.
    unfold encodeSession_try.
    destruct (existsSync fs (path_join p creds_json)); simpl; try done.
    by rewrite Hdir; simpl; rewrite He'.
  - rewrite encodeSession2_catches. unfold encodeSession2_try.
    destruct (existsSync fs (path_join p creds_json)); simpl; try done.
    by rewrite Hdir; simpl; rewrite He2.
  - destruct H1 as [e' He']; [done|]. rewrite encodeSession_catches.
    unfold encodeSession_try.
    destruct (existsSync fs (path_join p creds_json)); simpl; try done.
    by rewrite Hdir; simpl; rewrite He'.
Qed.

Lemma encodeSession_never_throws_witness :
  encodeSessionOf Copy2
    (tree_fs (Dir (<[creds_json := File (js "{}")]> (<[js "keys" := Dir ∅]> ∅))))
    [] = Return None.
Proof.
  eapply (proj2 (proj2 (proj2 (proj2
            (encodeSession_never_throws Copy2 _ []))))
            _ (js "keys") EISDIR).
  - vm_compute. reflexivity.
  - vm_compute. apply list_elem_of_In. simpl. auto.
  - left. reflexivity.
  - vm_compute. reflexivity.
Defined.

(* ===================================================================== *)
(** * Properties: [cleanupSession] *)
(* ===================================================================== *)

Lemma existsSync_sessionPath (w : World) (sessionId : jsstring) :
  existsSync (fs_of w) (sessionPath sessionId) =
    match disk w !! sessionId with
    | Some (File _) | Some (Dir _) | Some (Special _) => true
    | Some Dangling | None => false
    end.
Proof.
  unfold fs_of, sessionPath. simpl.
  destruct (disk w !! sessionId) as [n|]; reflexivity.
Qed.

(** [cleanupSession] by cases: is the directory there, does
    [removeSync] fail, is there a record, does [end()] throw. *)
Ltac cleanup_cases env sessionId w :=
  unfold cleanupSession, cleanupSession2, etry, ebind, fs_existsSync,
    sessions_get, sessions_delete, removeSync, sock_end, eret;
  destruct (existsSync (fs_of w) (sessionPath sessionId)); simpl;
  [destruct (removeSync_error env sessionId); simpl; [reflexivity|]|];
  (destruct (sessions w !! sessionId) as [?s|]; simpl; [|reflexivity]);
  match goal with
  | s : Session |- _ => destruct (end_error env (sock s)); reflexivity
  end.

Lemma cleanupSession_returns (env : Env) (sessionId : jsstring) (w : World) :
  fst (cleanupSession env sessionId w) = Return ().
Proof. by cleanup_cases env sessionId w. Qed.

Lemma cleanupSession2_returns (env : Env) (sessionId : jsstring) (w : World) :
  fst (cleanupSession2 env sessionId w) = Return ().
Proof. by cleanup_cases env sessionId w. Qed.

Lemma cleanupSessionOf_returns (c : copy) (env : Env) (sessionId : jsstring)
    (w : World) :
  fst (cleanupSessionOf c env sessionId w) = Return ().
Proof.
  destruct c; simpl;
    auto using cleanupSession_returns, cleanupSession2_returns.
Qed.

(** What [cleanupSession] leaves behind, spelled out: nothing changes
    when the directory is there and cannot be removed; otherwise the
    directory is gone, [end()] was called on the socket of the record if
    there was one, and the record is gone. *)
Lemma cleanupSession_world (env : Env) (sessionId : jsstring) (w : World) :
  snd (cleanupSession env sessionId w) =
    if existsSync (fs_of w) (sessionPath sessionId)
       && bool_decide (is_Some (removeSync_error env sessionId))
    then w
    else
      {| sessions := delete sessionId (sessions w);
         disk := if existsSync (fs_of w) (sessionPath sessionId)
                 then delete sessionId (disk w) else disk w;
         endCalls := match sessions w !! sessionId with
                     | Some s => endCalls w ++ [sock s]
                     | None => endCalls w
                     end |}.
Proof. by cleanup_cases env sessionId w. Qed.

(** C4. Calling [cleanupSession] (first and third copy) a second time
    changes nothing: the session map, the directory on disk and the
    calls made on the socket are after two calls what they are after
    one, and neither call throws. *)
Theorem cleanupSession_idempotent (env : Env) (sessionId : jsstring)
    (w : World) :
  let once := cleanupSession env sessionId w in
  let twice := cleanupSession env sessionId (snd once) in
  fst once = Return ()
  ∧ fst twice = Return ()
  ∧ snd twice = snd once.
Proof.
  simpl. split; [apply cleanupSession_returns|].
  split; [apply cleanupSession_returns|].
  rewrite (cleanupSession_world env sessionId w).
  destruct (existsSync (fs_of w) (sessionPath sessionId)
            && bool_decide (is_Some (removeSync_error env sessionId)))
    eqn:Hstuck.
  - rewrite cleanupSession_world, Hstuck. reflexivity.
  - rewrite cleanupSession_world.
    set (w1 := {| sessions := delete sessionId (sessions w);
                  disk := _; endCalls := _ |}).
    assert (existsSync (fs_of w1) (sessionPath sessionId) = false) as Hgone.
    { rewrite existsSync_sessionPath. subst w1. simpl.
      rewrite (existsSync_sessionPath w) in *.
      destruct (disk w !! sessionId) as [[]|] eqn:Hd;
        rewrite ?lookup_delete_eq, ?Hd; reflexivity. }
    rewrite Hgone. simpl.
    subst w1. simpl. rewrite lookup_delete_eq.
    f_equal. apply delete_id, lookup_delete_eq.
Qed.

(** The second copy does not guard [sock.end()]: when it throws, the
    outer [catch] is entered before [sessions.delete], the record stays,
    and a second call calls [end()] again. *)
Example cleanupSession2_end_throws :
  let w := run Copy2 end_throws
             [Register (js "ALMEER_A1") 1%nat (js "1234567") 0%Z] initial in
  let once := snd (cleanupSession2 end_throws (js "ALMEER_A1") w) in
  let twice := snd (cleanupSession2 end_throws (js "ALMEER_A1") once) in
  is_Some (sessions once !! js "ALMEER_A1")
  ∧ endCalls once = [1%nat]
  ∧ endCalls twice = [1%nat; 1%nat].
Proof. vm_compute. split; [eauto|split; reflexivity]. Qed.

(* ===================================================================== *)
(** * Properties: the lifecycle of a record *)
(* ===================================================================== *)

Lemma base64_encode_nonempty (bs : list N) : bs ≠ [] → base64_encode bs ≠ [].
Proof. destruct bs as [|a [|b [|c r]]]; simpl; congruence. Qed.

Lemma encode_files_nonempty (files : jsobject) : encode_files files ≠ [].
Proof.
  unfold encode_files, JSON_stringify. apply base64_encode_nonempty.
  simpl. discriminate.
Qed.

Lemma encodeSessionOf_nonempty (c : copy) (fs : FileSystem) (p : path)
    (s : jsstring) :
  encodeSessionOf c fs p = Return (Some s) → s ≠ [].
Proof.
  destruct c; simpl;
    rewrite ?encodeSession_catches, ?encodeSession2_catches;
    unfold encodeSession_try, encodeSession2_try;
    destruct (existsSync fs (path_join p creds_json)); simpl; try congruence;
    destruct (readdirSync fs p) as [names|]; simpl; try congruence.
  1,3: destruct (collectFiles fs p names []); simpl; try congruence;
       intros [= <-]; apply encode_files_nonempty.
  destruct (collectFiles2 fs p names []); simpl; try congruence;
    intros [= <-]; apply encode_files_nonempty.
Qed.

(** [cleanupSession] touches the session map at its own id only, and
    there it removes the record or leaves it. *)
Lemma cleanupSessionOf_sessions (c : copy) (env : Env) (sessionId : jsstring)
    (w : World) :
  sessions (snd (cleanupSessionOf c env sessionId w)) = sessions w
  ∨ sessions (snd (cleanupSessionOf c env sessionId w))
    = delete sessionId (sessions w).
Proof.
  destruct c; simpl;
    unfold cleanupSession, cleanupSession2, etry, ebind, fs_existsSync,
      sessions_get, sessions_delete, removeSync, sock_end, eret;
    destruct (existsSync (fs_of w) (sessionPath sessionId)); simpl;
    try (destruct (removeSync_error env sessionId); simpl; [by left|]);
    destruct (sessions w !! sessionId) as [s|]; simpl; try (by right);
    destruct (end_error env (sock s)); simpl; auto.
Qed.

Lemma onWatchdog_sessions (c : copy) (env : Env) (sessionId : jsstring)
    (w : World) :
  sessions (snd (onWatchdog c env sessionId w)) = sessions w
  ∨ sessions (snd (onWatchdog c env sessionId w))
    = delete sessionId (sessions w).
Proof.
  unfold onWatchdog, ebind, sessions_get, eret. simpl.
  destruct (sessions w !! sessionId) as [s|]; simpl; [|by left].
  destruct (bool_decide (status s = pending)); simpl; [|by left].
  apply cleanupSessionOf_sessions.
Qed.

Lemma onClose_sessions (c : copy) (env : Env) (sessionId : jsstring)
    (code : Z) (w : World) :
  sessions (snd (onClose c env sessionId code w)) = sessions w
  ∨ sessions (snd (onClose c env sessionId code w))
    = delete sessionId (sessions w).
Proof.
  unfold onClose. destruct (code =? loggedOut)%Z; simpl; [|by left].
  apply cleanupSessionOf_sessions.
Qed.

Lemma consistent_removal (w w' : World)
    (outcomes : gmap jsstring (option jsstring)) (sessionId : jsstring) :
  consistent (w, outcomes) →
  sessions w' = sessions w ∨ sessions w' = delete sessionId (sessions w) →
  consistent
    (w', match sessions w' !! sessionId with
         | Some _ => outcomes
         | None => delete sessionId outcomes
         end).
Proof.
  intros Hc Hs id s. simpl. intros Hlook.
  assert (sessions w !! id = Some s) as Hw.
  { destruct Hs as [Hs|Hs]; rewrite Hs in Hlook; [done|].
    apply lookup_delete_Some in Hlook. tauto. }
  specialize (Hc id s Hw). unfold record_agrees in *. simpl in *.
  destruct (sessions w' !! sessionId) eqn:Hid; [done|].
  assert (id ≠ sessionId) by congruence.
  by rewrite lookup_delete_ne.
Qed.

Lemma track_consistent (c : copy) (env : Env)
    (a : World * gmap jsstring (option jsstring)) (e : event) :
  consistent a → consistent (track c env a e).
Proof.
  destruct a as [w g]. intros Hc. unfold track. simpl fst. simpl snd.
  destruct e as [id|id k ph t|id|id|id|id code|d]; unfold step; simpl action.
  - (* EnsureDir *)
    intros j s. simpl. intros Hj. apply (Hc j s). simpl.
    revert Hj. unfold ensureDirSync.
    destruct (ensureDirSync_error env id); simpl; [done|].
    by destruct (disk w !! id) as [[]|].
  - (* Register *)
    intros j s. simpl. intros Hj. unfold record_agrees. simpl.
    destruct (decide (id = j)) as [->|Hne].
    + rewrite lookup_insert_eq in Hj. injection Hj as <-.
      by rewrite lookup_delete_eq.
    + rewrite lookup_insert_ne in Hj by done.
      rewrite lookup_delete_ne by done. by apply (Hc j s).
  - apply (consistent_removal w); [done|apply cleanupSessionOf_sessions].
  - apply (consistent_removal w); [done|apply onWatchdog_sessions].
  - (* Opened *)
    unfold encodeAndStore, ebind, sessions_get, sessions_set, eret.
    destruct (encodeSessionOf c (fs_of w) (sessionPath id)) as [outcome|err]
      eqn:Henc; simpl.
    + destruct (sessions w !! id) as [s0|] eqn:Hid; simpl; [|done].
      intros j s. simpl. intros Hj. unfold record_agrees.
      destruct (decide (id = j)) as [->|Hne].
      * rewrite lookup_insert_eq in Hj. injection Hj as <-.
        rewrite lookup_insert_eq. simpl. split; [done|]. split; [done|].
        intros ->. by eapply encodeSessionOf_nonempty.
      * rewrite lookup_insert_ne in Hj by done.
        rewrite lookup_insert_ne by done. by apply (Hc j s).
    + by destruct (sessions w !! id).
  - apply (consistent_removal w); [done|apply onClose_sessions].
  - (* DiskWrite *)
    intros j s. simpl. intros Hj. by apply (Hc j s).
Qed.

Lemma audit_snoc (c : copy) (env : Env) (trace : list event) (e : event) :
  audit c env (trace ++ [e]) = track c env (audit c env trace) e.
Proof. unfold audit. by rewrite foldl_app. Qed.

Lemma audit_consistent (c : copy) (env : Env) (trace : list event) :
  consistent (audit c env trace).
Proof.
  induction trace as [|e trace IH] using rev_ind.
  - intros id s. simpl. by rewrite lookup_empty.
  - rewrite audit_snoc. by apply track_consistent.
Qed.

(** The audit follows the run: its world is the world of [run]. *)
Lemma audit_world (c : copy) (env : Env) (trace : list event) :
  fst (audit c env trace) = run c env trace initial.
Proof.
  induction trace as [|e trace IH] using rev_ind; [reflexivity|].
  rewrite audit_snoc. unfold run. rewrite foldl_app. simpl.
  fold (run c env trace initial). by rewrite <- IH.
Qed.

(** What one pairing request does to the world is a run of events. *)
Lemma pair_is_a_run (c : copy) (env : Env) (o : PairOracle) (phone : jsvalue)
    (w : World) :
  ∃ trace, snd (pair c env o phone w) = run c env trace w.
Proof.
  unfold pair.
  destruct (truthy phone); simpl; [|by exists []].
  unfold ebind at 1. unfold lift at 1.
  destruct (phone_replace phone) as [cleanPhone|e]; simpl; [|by exists []].
  destruct (length cleanPhone <? minDigits c)%nat; simpl; [by exists []|].
  set (id := generateId (randomTail o)).
  unfold etry at 1. unfold ebind at 1.
  destruct (ensureDirSync env id w) as [[[]|e] w1] eqn:Hdir.
  2:{ exists [EnsureDir id; Cleanup id]. unfold run, step, ebind. simpl.
      rewrite Hdir. simpl.
      by destruct (cleanupSessionOf c env id w1) as [[[]|] ?]. }
  assert (w1 = step c env w (EnsureDir id)) as Hw1
    by (unfold step; simpl; by rewrite Hdir).
  unfold ebind at 1. unfold lift at 1.
  destruct (authState o) as [[]|e].
  2:{ exists [EnsureDir id; Cleanup id]. unfold run. simpl. rewrite <- Hw1.
      unfold step, ebind. simpl.
      by destruct (cleanupSessionOf c env id w1) as [[[]|] ?]. }
  unfold ebind at 1. unfold lift at 1.
  destruct (latestVersion o) as [[]|e].
  2:{ exists [EnsureDir id; Cleanup id]. unfold run. simpl. rewrite <- Hw1.
      unfold step, ebind. simpl.
      by destruct (cleanupSessionOf c env id w1) as [[[]|] ?]. }
  unfold ebind at 1. unfold lift at 1.
  destruct (newSocket o) as [k|e].
  2:{ exists [EnsureDir id; Cleanup id]. unfold run. simpl. rewrite <- Hw1.
      unfold step, ebind. simpl.
      by destruct (cleanupSessionOf c env id w1) as [[[]|] ?]. }
  unfold ebind at 1. unfold sessions_set at 1.
  set (w2 := {| sessions := _; disk := disk w1; endCalls := endCalls w1 |}).
  assert (w2 = step c env w1 (Register id k cleanPhone (now o))) as Hw2
    by reflexivity.
  unfold ebind at 1. unfold etry at 1. unfold ebind at 1. unfold lift at 1.
  destruct (pairingCode o) as [code|e]; simpl.
  - exists [EnsureDir id; Register id k cleanPhone (now o)].
    unfold run. simpl. by rewrite <- Hw1, <- Hw2.
  - exists [EnsureDir id; Register id k cleanPhone (now o); Cleanup id].
    unfold run. simpl. rewrite <- Hw1, <- Hw2.
    unfold step, ebind. simpl.
    pose proof (cleanupSessionOf_returns c env id w2) as Hr.
    destruct (cleanupSessionOf c env id w2) as [r0 w3].
    simpl in Hr. subst r0. reflexivity.
Qed.

Lemma run_statuses (c : copy) (env : Env) (trace : list event)
    (sessionId : jsstring) (s : Session) :
  sessions (run c env trace initial) !! sessionId = Some s →
  status s = pending ∨ status s = connected.
Proof.
  rewrite <- audit_world. intros Hs.
  pose proof (audit_consistent c env trace sessionId s Hs) as Hr.
  unfold record_agrees in Hr.
  destruct (snd (audit c env trace) !! sessionId); tauto.
Qed.

Lemma run_sessionString (c : copy) (env : Env) (trace : list event)
    (sessionId : jsstring) (s : Session) :
  sessions (run c env trace initial) !! sessionId = Some s →
  sessionString s ≠ Some [].
Proof.
  rewrite <- audit_world. intros Hs.
  pose proof (audit_consistent c env trace sessionId s Hs) as Hr.
  unfold record_agrees in Hr.
  destruct (snd (audit c env trace) !! sessionId).
  - destruct Hr as (_ & -> & ?). done.
  - destruct Hr as (_ & ->). done.
Qed.

(** An event of another session leaves the record of this one alone. *)
Lemma step_other_session (c : copy) (env : Env) (w : World) (e : event)
    (sessionId : jsstring) :
  event_session e ≠ Some sessionId →
  sessions (step c env w e) !! sessionId = sessions w !! sessionId.
Proof.
  intros He. unfold step.
  destruct e as [id|id k ph t|id|id|id|id code|d]; simpl in He |- *.
  - unfold ensureDirSync.
    destruct (ensureDirSync_error env id); [done|].
    by destruct (disk w !! id) as [[]|].
  - apply lookup_insert_ne. congruence.
  - destruct (cleanupSessionOf_sessions c env id w) as [-> | ->]; [done|].
    apply lookup_delete_ne. congruence.
  - destruct (onWatchdog_sessions c env id w) as [-> | ->]; [done|].
    apply lookup_delete_ne. congruence.
  - unfold encodeAndStore, ebind, sessions_get, sessions_set, eret.
    destruct (encodeSessionOf c (fs_of w) (sessionPath id)); [|done].
    destruct (sessions w !! id); [|done]. simpl.
    apply lookup_insert_ne. congruence.
  - destruct (onClose_sessions c env id code w) as [-> | ->]; [done|].
    apply lookup_delete_ne. congruence.
  - done.
Qed.

Lemma run_other_sessions (c : copy) (env : Env) (trace : list event)
    (w : World) (sessionId : jsstring) :
  Forall (fun e => event_session e ≠ Some sessionId) trace →
  sessions (run c env trace w) !! sessionId = sessions w !! sessionId.
Proof.
  intros H. revert w. induction H as [|e trace He _ IH]; intros w; [done|].
  unfold run in *. cbn [foldl]. rewrite IH. by apply step_other_session.
Qed.

(** Between [sessions.set] and the response of [POST /api/pair] the
    handler awaits twice.  No callback of the session is registered
    yet, so what runs meanwhile belongs to other sessions: the record
    is still the pending one afterwards. *)
Lemma registered_stays_pending (c : copy) (env : Env) (w : World)
    (sessionId : jsstring) (k : nat) (cleanPhone : jsstring) (t : Z)
    (others : list event) :
  Forall (fun e => event_session e ≠ Some sessionId) others →
  sessions (run c env (Register sessionId k cleanPhone t :: others) w)
    !! sessionId
  = Some {| sock := k; phone := cleanPhone; status := pending;
            sessionString := None; createdAt := t |}.
Proof.
  intros H.
  change (run c env (Register sessionId k cleanPhone t :: others) w)
    with (run c env others
            (step c env w (Register sessionId k cleanPhone t))).
  rewrite run_other_sessions by done.
  unfold step. simpl. apply lookup_insert_eq.
Qed.

(* ===================================================================== *)
(** * Properties: the two [GET] handlers *)
(* ===================================================================== *)

(** C6. At every point of a run, [GET /api/status/:sessionId] answers
    with a body that has the one field [status]; its value is
    ['not_found'] when the id is not in the map and the status of the
    record otherwise, and it is one of ['not_found'], ['pending'],
    ['connected'], ['closed'] (the code's spelling of the names in the
    specification). *)
Theorem statusHandler_status (c : copy) (env : Env) (trace : list event)
    (sessionId : jsstring) :
  let w := run c env trace initial in
  ∃ v, body (statusHandler w sessionId) = [("status", VString v)]
       ∧ v ∈ [not_found; pending; connected; closed]
       ∧ (sessions w !! sessionId = None → v = not_found)
       ∧ (∀ s, sessions w !! sessionId = Some s → v = status s).
Proof.
  simpl. unfold statusHandler.
  destruct (sessions (run c env trace initial) !! sessionId) as [s|] eqn:Hs.
  - exists (status s). split; [reflexivity|]. split.
    + destruct (run_statuses c env trace sessionId s Hs) as [-> | ->];
        set_solver.
    + split; [done|]. by intros s' [= ->].
  - exists not_found. split; [reflexivity|]. split; [set_solver|].
    split; done.
Qed.

Lemma statusHandler_status_witness :
  ∃ v, body (statusHandler
               (run Copy1 calm [EnsureDir (js "ALMEER_A1");
                                Register (js "ALMEER_A1") 1%nat (js "1234567") 0%Z]
                    initial)
               (js "ALMEER_A1")) = [("status", VString v)]
       ∧ v = pending.
Proof.
  destruct (statusHandler_status Copy1 calm
              [EnsureDir (js "ALMEER_A1");
               Register (js "ALMEER_A1") 1%nat (js "1234567") 0%Z]
              (js "ALMEER_A1")) as (v & Hbody & _ & _ & Hsome).
  exists v. split; [exact Hbody|].
  apply (Hsome {| sock := 1%nat; phone := js "1234567"; status := pending;
                  sessionString := None; createdAt := 0%Z |}).
  vm_compute. reflexivity.
Defined.

(** No status answer is ['closed']: a session that was closed by a
    logout is removed and reads ['not_found']. *)
Lemma statusHandler_never_closed (c : copy) (env : Env) (trace : list event)
    (sessionId : jsstring) :
  body (statusHandler (run c env trace initial) sessionId)
  ≠ [("status", VString closed)].
Proof.
  unfold statusHandler.
  destruct (sessions (run c env trace initial) !! sessionId) as [s|] eqn:Hs.
  - destruct (run_statuses c env trace sessionId s Hs) as [H|H];
      simpl; rewrite H; discriminate.
  - discriminate.
Qed.

(** C7. At every point of a run, [GET /api/session/:sessionId] answers
    [{success: true, sessionId, sessionString}] exactly when the record
    exists, is connected and has a string; it answers 404 for an unknown
    id, 400 for a record that is not connected, and 500 for a connected
    record whose string is [null]. *)
Theorem sessionHandler_outcomes (c : copy) (env : Env) (trace : list event)
    (sessionId : jsstring) :
  let w := run c env trace initial in
  let r := sessionHandler c w sessionId in
  (∀ str,
     r = {| httpStatus := 200;
            body := [("success", VBool true);
                     ("sessionId", VString sessionId);
                     ("sessionString", VString str)] |}
     ↔ ∃ s, sessions w !! sessionId = Some s
            ∧ status s = connected ∧ sessionString s = Some str)
  ∧ (sessions w !! sessionId = None →
     httpStatus r = 404 ∧ field "success" r = Some (VBool false))
  ∧ (∀ s, sessions w !! sessionId = Some s → status s ≠ connected →
          httpStatus r = 400 ∧ field "success" r = Some (VBool false))
  ∧ (∀ s, sessions w !! sessionId = Some s → status s = connected →
          sessionString s = None →
          httpStatus r = 500 ∧ field "success" r = Some (VBool false)).
Proof.
  simpl. unfold sessionHandler.
  destruct (sessions (run c env trace initial) !! sessionId) as [s|] eqn:Hs.
  - pose proof (run_sessionString c env trace sessionId s Hs) as Hne.
    destruct (decide (status s = connected)) as [Hst|Hst].
    + rewrite (bool_decide_eq_true_2 _ Hst). simpl.
      destruct (sessionString s) as [str0|] eqn:Hstr; simpl.
      * rewrite bool_decide_eq_false_2 by congruence.
        split; [|split; [done|split; [congruence|congruence]]].
        intros str. split.
        -- intros [= ->]. eauto.
        -- intros (s' & [= <-] & _ & Hs'). simpl. congruence.
      * split; [|split; [done|split; [congruence|]]].
        -- intros str. split; [discriminate|].
           intros (s' & [= <-] & _ & ?). congruence.
        -- intros s' [= <-] _ _. done.
    + rewrite (bool_decide_eq_false_2 _ Hst). simpl.
      split; [|split; [done|split]].
      * intros str. split; [discriminate|].
        intros (s' & [= <-] & ? & _). done.
      * intros s' [= <-] _. done.
      * intros s' [= <-] ?. done.
  - split; [|split; [done|split; intros; discriminate]].
    intros str. split; [discriminate|]. intros (s' & ? & _). discriminate.
Qed.

Lemma sessionHandler_outcomes_witness :
  ∃ str,
    sessionHandler Copy1
      (run Copy1 calm (pairing_run (js "ALMEER_A1")) initial) (js "ALMEER_A1")
    = {| httpStatus := 200;
         body := [("success", VBool true);
                  ("sessionId", VString (js "ALMEER_A1"));
                  ("sessionString", VString str)] |}.
Proof.
  eexists.
  apply (proj1 (sessionHandler_outcomes Copy1 calm
                  (pairing_run (js "ALMEER_A1")) (js "ALMEER_A1"))).
  eexists. split; [vm_compute; reflexivity|]. split; reflexivity.
Defined.

(* ===================================================================== *)
(** * Properties: [sessionString] and the encoding step *)
(* ===================================================================== *)

(** The audit records, at a connection open on a live record, what
    [encodeSession] returned, and the record then holds exactly that. *)
Lemma track_opened (c : copy) (env : Env)
    (a : World * gmap jsstring (option jsstring)) (sessionId : jsstring)
    (s : Session) :
  sessions (fst a) !! sessionId = Some s →
  ∃ outcome,
    encodeSessionOf c (fs_of (fst a)) (sessionPath sessionId) = Return outcome
    ∧ snd (track c env a (Opened sessionId)) !! sessionId = Some outcome
    ∧ sessions (fst (track c env a (Opened sessionId))) !! sessionId
      = Some {| sock := sock s; phone := phone s; status := connected;
                sessionString := outcome; createdAt := createdAt s |}.
Proof.
  intros Hs.
  destruct (encodeSessionOf_catches c (fs_of (fst a)) (sessionPath sessionId))
    as [outcome Henc].
  exists outcome. split; [exact Henc|].
  unfold track, step. simpl.
  unfold encodeAndStore, ebind, sessions_get, sessions_set. rewrite Henc, Hs. simpl.
  by rewrite !lookup_insert_eq.
Qed.

(** C8. At every point of a run, a record of the session map has a
    string exactly when it is connected and its last encoding step
    returned one.  A pending record has [null]; a connected record whose
    encoding returned [null] has [null]; and a string is the one the
    encoding returned. *)
Theorem sessionString_iff_encoded (c : copy) (env : Env) (trace : list event)
    (sessionId : jsstring) (s : Session) :
  let w := fst (audit c env trace) in
  let outcomes := snd (audit c env trace) in
  sessions w !! sessionId = Some s →
  (sessionString s ≠ None
   ↔ status s = connected ∧ ∃ str, outcomes !! sessionId = Some (Some str))
  ∧ (status s = pending → sessionString s = None)
  ∧ (status s = connected → outcomes !! sessionId = Some None →
     sessionString s = None)
  ∧ (∀ str, outcomes !! sessionId = Some (Some str) →
            sessionString s = Some str).
Proof.
  simpl. intros Hs.
  pose proof (audit_consistent c env trace sessionId s Hs) as Hr.
  unfold record_agrees in Hr.
  destruct (snd (audit c env trace) !! sessionId) as [outcome|].
  - destruct Hr as (Hst & Hstr & _). rewrite Hstr, Hst.
    split; [|split; [discriminate|split]].
    + split.
      * intros Hne. split; [done|]. destruct outcome; [eauto|done].
      * intros (_ & str & [= ->]). done.
    + by intros _ [= ->].
    + by intros str [= ->].
  - destruct Hr as (Hst & Hstr). rewrite Hstr.
    split; [|split; [done|split; [done|discriminate]]].
    split; [done|]. intros (_ & str & ?). discriminate.
Qed.

Lemma sessionString_iff_encoded_witness :
  ∃ s, sessions (fst (audit Copy1 calm (pairing_run (js "ALMEER_A1"))))
         !! js "ALMEER_A1" = Some s
       ∧ sessionString s ≠ None.
Proof.
  eexists. split; [vm_compute; reflexivity|].
  eapply (proj2 (proj1 (sessionString_iff_encoded Copy1 calm
                          (pairing_run (js "ALMEER_A1")) (js "ALMEER_A1") _ _))).
  split; [reflexivity|]. eexists. vm_compute. reflexivity.
  Unshelve. vm_compute. reflexivity.
Defined.

(** C10. [GET /api/status/:sessionId] always answers with HTTP 200; for
    an id that is not in the map (never created, or removed by
    [cleanupSession]) the body is [{status: 'not_found'}], where
    [GET /api/session/:sessionId] answers 404. *)
Theorem statusHandler_unknown_is_200 (c : copy) (env : Env) (w : World)
    (sessionId : jsstring) :
  httpStatus (statusHandler w sessionId) = 200
  ∧ (sessions w !! sessionId = None →
     statusHandler w sessionId
       = {| httpStatus := 200; body := [("status", VString not_found)] |}
     ∧ httpStatus (sessionHandler c w sessionId) = 404)
  ∧ (removeSync_error env sessionId = None →
     let w' := snd (cleanupSession env sessionId w) in
     statusHandler w' sessionId
       = {| httpStatus := 200; body := [("status", VString not_found)] |}
     ∧ httpStatus (sessionHandler c w' sessionId) = 404).
Proof.
  assert (∀ w0, sessions w0 !! sessionId = None →
     statusHandler w0 sessionId
       = {| httpStatus := 200; body := [("status", VString not_found)] |}
     ∧ httpStatus (sessionHandler c w0 sessionId) = 404) as Habsent.
  { intros w0 H0. unfold statusHandler, sessionHandler. by rewrite H0. }
  split; [|split].
  - unfold statusHandler. by destruct (sessions w !! sessionId).
  - apply Habsent.
  - intros Hrm w'. apply Habsent. subst w'.
    rewrite cleanupSession_world, Hrm.
    rewrite bool_decide_eq_false_2 by (by intros [? ?]).
    rewrite andb_false_r. simpl. apply lookup_delete_eq.
Qed.

Lemma statusHandler_unknown_is_200_witness :
  statusHandler initial (js "ALMEER_NEVER")
    = {| httpStatus := 200; body := [("status", VString not_found)] |}
  ∧ httpStatus (sessionHandler Copy1 initial (js "ALMEER_NEVER")) = 404.
Proof.
  apply (proj1 (proj2 (statusHandler_unknown_is_200 Copy1 calm initial
                         (js "ALMEER_NEVER")))).
  reflexivity.
Defined.

(* ===================================================================== *)
(** * Properties: the pairing code *)
(* ===================================================================== *)

Lemma take_dots_plain (n : nat) (s : jsstring) :
  Forall (fun u => is_line_terminator u = false) s →
  take_dots n s = (take n s, drop n s).
Proof.
  revert s. induction n as [|n IH]; intros s Hs; [by destruct s|].
  destruct s as [|u s]; [reflexivity|].
  apply Forall_cons in Hs as [Hu Hs]. simpl. rewrite Hu.
  by rewrite (IH s Hs).
Qed.

Lemma match_dots_fuel_plain (fuel : nat) (s : jsstring) :
  Forall (fun u => is_line_terminator u = false) s →
  (length s ≤ fuel)%nat →
  match_dots_fuel fuel s = chunk4 s.
Proof.
  revert s. induction fuel as [|fuel IH]; intros s Hs Hlen.
  { destruct s; [reflexivity|simpl in Hlen; lia]. }
  destruct s as [|a s]; [reflexivity|].
  cbn [match_dots_fuel]. rewrite (take_dots_plain 4 (a :: s) Hs).
  destruct s as [|b [|c [|d r]]]; cbn [take drop chunk4];
    try (destruct fuel; reflexivity).
  f_equal. apply IH.
  - by do 4 apply Forall_cons in Hs as [_ Hs].
  - simpl in Hlen. lia.
Qed.

Lemma match_dots_plain (s : jsstring) :
  Forall (fun u => is_line_terminator u = false) s →
  match_dots s = chunk4 s.
Proof. intros Hs. by apply match_dots_fuel_plain. Qed.

Lemma chunk4_concat (s : jsstring) : concat (chunk4 s) = s.
Proof.
  remember (length s) as n eqn:Hn. revert s Hn.
  induction n as [n IH] using lt_wf_ind. intros s Hn.
  destruct s as [|a [|b [|c [|d r]]]]; try reflexivity.
  cbn [chunk4 concat app]. do 4 f_equal.
  apply (IH (length r)); [subst n; simpl; lia|reflexivity].
Qed.

Lemma chunk4_groups (s : jsstring) :
  Forall (fun g => (1 ≤ length g ≤ 4)%nat) (chunk4 s).
Proof.
  remember (length s) as n eqn:Hn. revert s Hn.
  induction n as [n IH] using lt_wf_ind. intros s Hn.
  destruct s as [|a [|b [|c [|d r]]]]; cbn [chunk4];
    repeat constructor; simpl; try lia.
  apply (IH (length r)); [subst n; simpl; lia|reflexivity].
Qed.

Lemma join_cons_nonempty (sep g : jsstring) (gs : list jsstring) :
  g ≠ [] → join sep (g :: gs) ≠ [].
Proof.
  intros Hg. destruct gs; simpl; [done|].
  destruct g; [done|]. discriminate.
Qed.

Lemma chunk4_head_nonempty (s : jsstring) (g : jsstring) (gs : list jsstring) :
  chunk4 s = g :: gs → g ≠ [].
Proof.
  destruct s as [|a [|b [|c [|d r]]]]; cbn [chunk4]; intros [= <- _];
    discriminate.
Qed.

(** On a code without line terminators, the formatted code is the code
    cut into groups of four and joined by ['-']. *)
Lemma formatCode_plain (raw : jsstring) :
  Forall (fun u => is_line_terminator u = false) raw →
  formatCode (Some raw) = Some (join (js "-") (chunk4 raw)).
Proof.
  intros Hraw. unfold formatCode. rewrite (match_dots_plain raw Hraw).
  destruct (chunk4 raw) as [|g gs] eqn:Hc.
  - destruct raw as [|a [|b [|c [|d r]]]]; done.
  - pose proof (join_cons_nonempty (js "-") g gs
                  (chunk4_head_nonempty raw g gs Hc)) as Hj.
    by destruct (join (js "-") (g :: gs)).
Qed.

(* ===================================================================== *)
(** * Properties: a session string can be read back *)
(* ===================================================================== *)

Lemma base64_value_char (n : N) :
  n < 64 → base64_value (base64_char n) = Some n.
Proof.
  intros Hn.
  assert (∀ k : nat, (k < 64)%nat →
            base64_value (base64_char (N.of_nat k)) = Some (N.of_nat k)) as H.
  { intros k Hk. do 64 (destruct k as [|k]; [reflexivity|]). lia. }
  rewrite <- (N2Nat.id n). apply H. lia.
Qed.

Lemma base64_char_not_pad (n : N) : n < 64 → (base64_char n =? 61) = false.
Proof.
  intros Hn.
  assert (∀ k : nat, (k < 64)%nat →
            (base64_char (N.of_nat k) =? 61) = false) as H.
  { intros k Hk. do 64 (destruct k as [|k]; [reflexivity|]). lia. }
  rewrite <- (N2Nat.id n). apply H. lia.
Qed.

Lemma base64_roundtrip (bs : list N) :
  Forall (fun b => b < 256) bs →
  base64_decode (base64_encode bs) = Some bs.
Proof.
  remember (length bs) as n eqn:Hn. revert bs Hn.
  induction n as [n IH] using lt_wf_ind. intros bs Hn Hbs.
  destruct bs as [|a [|b [|c r]]].
  - reflexivity.
  - apply Forall_cons in Hbs as [Ha _].
    cbn [base64_encode base64_decode].
    rewrite !base64_value_char by dlia. simpl.
    do 2 f_equal. dlia.
  - apply Forall_cons in Hbs as [Ha Hbs]. apply Forall_cons in Hbs as [Hb _].
    cbn [base64_encode base64_decode].
    rewrite !base64_value_char by dlia. cbn [mbind option_bind].
    change (61 =? 61) with true. cbv iota.
    rewrite base64_char_not_pad by dlia.
    do 2 f_equal; [dlia|f_equal; dlia].
  - apply Forall_cons in Hbs as [Ha Hbs]. apply Forall_cons in Hbs as [Hb Hbs].
    apply Forall_cons in Hbs as [Hc Hbs].
    cbn [base64_encode base64_decode].
    rewrite !base64_value_char by dlia. cbn [mbind option_bind].
    rewrite base64_char_not_pad by dlia.
    rewrite (IH (length r)); [|subst n; simpl; lia|reflexivity|exact Hbs].
    cbn [mbind option_bind].
    do 2 f_equal; [dlia|f_equal; [dlia|f_equal; dlia]].
Qed.

Lemma in_range_true (lo hi x : N) :
  lo ≤ x < hi → (lo <=? x) && (x <? hi) = true.
Proof.
  intros [H1 H2]. apply andb_true_intro.
  split; [by apply N.leb_le|by apply N.ltb_lt].
Qed.

Lemma in_range_false (lo hi x : N) :
  x < lo ∨ hi ≤ x → (lo <=? x) && (x <? hi) = false.
Proof.
  intros H. apply andb_false_iff.
  destruct H; [left; by apply N.leb_gt|right; by apply N.ltb_ge].
Qed.

Lemma utf8_decode_1 (u : N) (rest : list N) :
  u < 128 → utf8_decode (u :: rest) = cons u <$> utf8_decode rest.
Proof. intros Hu. cbn [utf8_decode]. by rewrite (proj2 (N.ltb_lt _ _) Hu). Qed.

Lemma utf8_decode_2 (u : N) (rest : list N) :
  128 ≤ u < 2048 →
  utf8_decode ((192 + u / 64) :: (128 + u mod 64) :: rest)
  = cons u <$> utf8_decode rest.
Proof.
  intros Hu. cbn [utf8_decode].
  rewrite (proj2 (N.ltb_ge _ _)) by dlia.
  rewrite in_range_true by dlia.
  unfold is_continuation. rewrite in_range_true by dlia.
  replace ((192 + u / 64 - 192) * 64 + (128 + u mod 64 - 128)) with u by dlia.
  reflexivity.
Qed.

Lemma utf8_decode_3 (u : N) (rest : list N) :
  2048 ≤ u < 65536 → is_surrogate u = false →
  utf8_decode ((224 + u / 4096) :: (128 + (u / 64) mod 64)
               :: (128 + u mod 64) :: rest)
  = cons u <$> utf8_decode rest.
Proof.
  intros Hu Hs. cbn [utf8_decode].
  rewrite (proj2 (N.ltb_ge _ _)) by dlia.
  rewrite in_range_false by dlia.
  rewrite in_range_true by dlia.
  unfold is_continuation. rewrite !in_range_true by dlia.
  replace ((224 + u / 4096 - 224) * 4096 + (128 + (u / 64) mod 64 - 128) * 64
           + (128 + u mod 64 - 128)) with u by dlia.
  rewrite Hs. rewrite (proj2 (N.leb_le _ _)) by lia.
  reflexivity.
Qed.

Lemma utf8_decode_4 (x : N) (rest : list N) :
  65536 ≤ x < 1114112 →
  utf8_decode ((240 + x / 262144) :: (128 + (x / 4096) mod 64)
               :: (128 + (x / 64) mod 64) :: (128 + x mod 64) :: rest)
  = (fun t => (55296 + (x - 65536) / 1024)
              :: (56320 + (x - 65536) mod 1024) :: t) <$> utf8_decode rest.
Proof.
  intros Hx. cbn [utf8_decode].
  rewrite (proj2 (N.ltb_ge _ _)) by dlia.
  rewrite (in_range_false 194 224) by dlia.
  rewrite (in_range_false 224 240) by dlia.
  rewrite (in_range_true 240 245) by dlia.
  unfold is_continuation. rewrite !in_range_true by dlia.
  replace ((240 + x / 262144 - 240) * 262144
           + (128 + (x / 4096) mod 64 - 128) * 4096
           + (128 + (x / 64) mod 64 - 128) * 64
           + (128 + x mod 64 - 128)) with x by dlia.
  rewrite (proj2 (N.leb_le _ _)) by lia.
  rewrite (proj2 (N.ltb_lt _ _)) by lia.
  reflexivity.
Qed.

Lemma surrogate_pair_value (u v : N) :
  55296 ≤ u < 56320 → 56320 ≤ v < 57344 →
  let x := 65536 + (u - 55296) * 1024 + (v - 56320) in
  65536 ≤ x < 1114112
  ∧ 55296 + (x - 65536) / 1024 = u
  ∧ 56320 + (x - 65536) mod 1024 = v.
Proof.
  intros Hu Hv.
  assert (∃ a b, u = 55296 + a ∧ v = 56320 + b ∧ a < 1024 ∧ b < 1024)
    as (a & b & -> & -> & Ha & Hb).
  { exists (u - 55296), (v - 56320). lia. }
  replace (55296 + a - 55296) with a by lia.
  replace (56320 + b - 56320) with b by lia.
  cbv zeta.
  replace (65536 + a * 1024 + b - 65536) with (a * 1024 + b) by lia.
  split; [lia|]. split; dlia.
Qed.

Lemma is_high_surrogate_range (u : N) :
  is_high_surrogate u = true ↔ 55296 ≤ u < 56320.
Proof.
  unfold is_high_surrogate. rewrite andb_true_iff, N.leb_le, N.ltb_lt. tauto.
Qed.

Lemma is_low_surrogate_range (u : N) :
  is_low_surrogate u = true ↔ 56320 ≤ u < 57344.
Proof.
  unfold is_low_surrogate. rewrite andb_true_iff, N.leb_le, N.ltb_lt. tauto.
Qed.

Lemma not_surrogate (u : N) :
  is_high_surrogate u = false → is_low_surrogate u = false →
  is_surrogate u = false.
Proof.
  unfold is_high_surrogate, is_low_surrogate, is_surrogate.
  rewrite !andb_false_iff, !N.leb_gt, !N.ltb_ge. lia.
Qed.

(** Reading as UTF-8 what [Buffer.from] wrote gives the string back. *)
Lemma utf8_roundtrip (s : jsstring) :
  well_formed s = true → utf8_decode (utf8_encode s) = Some s.
Proof.
  remember (length s) as n eqn:Hn. revert s Hn.
  induction n as [n IH] using lt_wf_ind. intros s Hn Hwf.
  destruct s as [|u r]; [reflexivity|].
  cbn [utf8_encode well_formed] in *.
  destruct (u <? 128) eqn:H1.
  { apply N.ltb_lt in H1. rewrite utf8_decode_1 by done.
    destruct (is_high_surrogate u) eqn:Hh.
    { apply is_high_surrogate_range in Hh. lia. }
    apply andb_true_iff in Hwf as [_ Hwf].
    rewrite (IH (length r)); [done|subst n; simpl; lia|done|done]. }
  apply N.ltb_ge in H1.
  destruct (u <? 2048) eqn:H2.
  { apply N.ltb_lt in H2. rewrite utf8_decode_2 by done.
    destruct (is_high_surrogate u) eqn:Hh.
    { apply is_high_surrogate_range in Hh. lia. }
    apply andb_true_iff in Hwf as [_ Hwf].
    rewrite (IH (length r)); [done|subst n; simpl; lia|done|done]. }
  apply N.ltb_ge in H2.
  destruct (is_high_surrogate u) eqn:Hh.
  - destruct r as [|v r']; [done|].
    apply andb_true_iff in Hwf as [Hl Hwf]. rewrite Hl.
    apply is_high_surrogate_range in Hh. apply is_low_surrogate_range in Hl.
    destruct (surrogate_pair_value u v Hh Hl) as (Hx & Hu & Hv).
    rewrite utf8_decode_4 by exact Hx. rewrite Hu, Hv.
    rewrite (IH (length r')); [done|subst n; simpl; lia|done|done].
  - apply andb_true_iff in Hwf as [Hwf Hr].
    apply andb_true_iff in Hwf as [Hl Hb].
    apply negb_true_iff in Hl. rewrite Hl. apply N.ltb_lt in Hb.
    rewrite utf8_decode_3; [|lia|by apply not_surrogate].
    rewrite (IH (length r)); [done|subst n; simpl; lia|done|done].
Qed.

Lemma utf8_encode_bytes (s : jsstring) :
  well_formed s = true → Forall (fun b => b < 256) (utf8_encode s).
Proof.
  remember (length s) as n eqn:Hn. revert s Hn.
  induction n as [n IH] using lt_wf_ind. intros s Hn Hwf.
  destruct s as [|u r]; [constructor|].
  cbn [utf8_encode well_formed] in *.
  destruct (u <? 128) eqn:H1.
  { apply N.ltb_lt in H1.
    destruct (is_high_surrogate u) eqn:Hh.
    { apply is_high_surrogate_range in Hh. lia. }
    apply andb_true_iff in Hwf as [_ Hwf].
    constructor; [lia|]. apply (IH (length r)); [subst n; simpl; lia|done|done]. }
  apply N.ltb_ge in H1.
  destruct (u <? 2048) eqn:H2.
  { apply N.ltb_lt in H2.
    destruct (is_high_surrogate u) eqn:Hh.
    { apply is_high_surrogate_range in Hh. lia. }
    apply andb_true_iff in Hwf as [_ Hwf].
    repeat (constructor; [dlia|]).
    apply (IH (length r)); [subst n; simpl; lia|done|done]. }
  apply N.ltb_ge in H2.
  destruct (is_high_surrogate u) eqn:Hh.
  - destruct r as [|v r']; [done|].
    apply andb_true_iff in Hwf as [Hl Hwf]. rewrite Hl.
    apply is_high_surrogate_range in Hh. apply is_low_surrogate_range in Hl.
    destruct (surrogate_pair_value u v Hh Hl) as (Hx & _ & _).
    cbv zeta in Hx.
    set (x := 65536 + (u - 55296) * 1024 + (v - 56320)) in *. clearbody x.
    repeat (constructor; [dlia|]).
    apply (IH (length r')); [subst n; simpl; lia|done|done].
  - apply andb_true_iff in Hwf as [Hwf Hr].
    apply andb_true_iff in Hwf as [Hl Hb].
    apply negb_true_iff in Hl. rewrite Hl. apply N.ltb_lt in Hb.
    repeat (constructor; [dlia|]).
    apply (IH (length r)); [subst n; simpl; lia|done|done].
Qed.

Lemma well_formed_plain (u : N) (r : jsstring) :
  u < 55296 → well_formed (u :: r) = well_formed r.
Proof.
  intros Hu. cbn [well_formed].
  unfold is_high_surrogate, is_low_surrogate.
  rewrite !in_range_false by lia.
  rewrite (proj2 (N.ltb_lt _ _)) by lia. reflexivity.
Qed.

Lemma well_formed_app (a b : jsstring) :
  well_formed a = true → well_formed b = true → well_formed (a ++ b) = true.
Proof.
  remember (length a) as n eqn:Hn. revert a Hn.
  induction n as [n IH] using lt_wf_ind. intros a Hn Ha Hb.
  destruct a as [|u r]; [done|].
  cbn [well_formed app] in *.
  destruct (is_high_surrogate u).
  - destruct r as [|v r']; [done|]. cbn [app].
    apply andb_true_iff in Ha as [Hv Hr]. rewrite Hv. cbn [andb].
    apply (IH (length r')); [subst n; simpl; lia|done|done|done].
  - apply andb_true_iff in Ha as [Hu Hr]. rewrite Hu. cbn [andb].
    apply (IH (length r)); [subst n; simpl; lia|done|done|done].
Qed.

Lemma hex_digit_plain (d : N) : d < 16 → hex_digit d < 55296.
Proof. intros Hd. unfold hex_digit. destruct (d <? 10); lia. Qed.

Lemma well_formed_unicode_escape (u : N) (r : jsstring) :
  u < 65536 →
  well_formed (unicode_escape u ++ r) = well_formed r.
Proof.
  intros Hu. unfold unicode_escape. cbn [app].
  rewrite (well_formed_plain 92) by lia.
  rewrite (well_formed_plain 117) by lia.
  by rewrite !well_formed_plain by (apply hex_digit_plain; dlia).
Qed.

Lemma is_low_surrogate_false (u : N) :
  is_low_surrogate u = false ↔ u < 56320 ∨ 57344 ≤ u.
Proof.
  unfold is_low_surrogate. rewrite andb_false_iff, N.leb_gt, N.ltb_ge. tauto.
Qed.

Lemma is_high_surrogate_false (u : N) :
  is_high_surrogate u = false ↔ u < 55296 ∨ 56320 ≤ u.
Proof.
  unfold is_high_surrogate. rewrite andb_false_iff, N.leb_gt, N.ltb_ge. tauto.
Qed.

(** What [QuoteJSONString] writes has no lone surrogate. *)
Lemma quote_chars_well_formed (s : jsstring) :
  bounded s → well_formed (quote_chars s) = true.
Proof.
  remember (length s) as n eqn:Hn. revert s Hn.
  induction n as [n IH] using lt_wf_ind. intros s Hn Hs.
  destruct s as [|u r]; [done|].
  apply Forall_cons in Hs as [Hu Hr].
  assert (well_formed (quote_chars r) = true) as IHr
    by (apply (IH (length r)); [subst n; simpl; lia|done|done]).
  cbn [quote_chars].
  repeat (match goal with
          | |- context [if ?u' =? ?k then _ else _] =>
              destruct (u' =? k); [by rewrite !well_formed_plain by lia|]
          end).
  destruct (u <? 32).
  { by rewrite well_formed_unicode_escape. }
  destruct (is_high_surrogate u) eqn:Hh.
  - destruct r as [|v r'].
    + rewrite <- (app_nil_r (unicode_escape u)).
      by rewrite well_formed_unicode_escape.
    + destruct (is_low_surrogate v) eqn:Hl.
      * cbn [well_formed]. rewrite Hh, Hl. cbn [andb].
        apply Forall_cons in Hr as [_ Hr'].
        apply (IH (length r')); [subst n; simpl; lia|done|done].
      * by rewrite well_formed_unicode_escape.
  - destruct (is_low_surrogate u) eqn:Hl.
    + by rewrite well_formed_unicode_escape.
    + cbn [well_formed]. rewrite Hh, Hl. cbn [negb andb].
      by rewrite (proj2 (N.ltb_lt _ _) Hu).
Qed.

Lemma QuoteJSONString_well_formed (s : jsstring) :
  bounded s → well_formed (QuoteJSONString s) = true.
Proof.
  intros Hs. unfold QuoteJSONString.
  rewrite well_formed_plain by lia.
  apply well_formed_app; [by apply quote_chars_well_formed|done].
Qed.

Lemma member_well_formed (kv : jsstring * jsstring) :
  bounded (fst kv) → bounded (snd kv) → well_formed (member kv) = true.
Proof.
  intros Hk Hv. unfold member.
  apply well_formed_app; [by apply QuoteJSONString_well_formed|].
  rewrite well_formed_plain by lia. by apply QuoteJSONString_well_formed.
Qed.

Lemma join_well_formed (sep : jsstring) (parts : list jsstring) :
  well_formed sep = true →
  Forall (fun p => well_formed p = true) parts →
  well_formed (join sep parts) = true.
Proof.
  intros Hsep. induction 1 as [|p parts Hp Hparts IH]; [done|].
  simpl. destruct parts; [done|].
  apply well_formed_app; [done|]. by apply well_formed_app.
Qed.

Lemma hex_value_digit (d : N) : d < 16 → hex_value (hex_digit d) = Some d.
Proof.
  intros Hd.
  assert (∀ k : nat, (k < 16)%nat →
            hex_value (hex_digit (N.of_nat k)) = Some (N.of_nat k)) as H.
  { intros k Hk. do 16 (destruct k as [|k]; [reflexivity|]). lia. }
  rewrite <- (N2Nat.id d). apply H. lia.
Qed.

Lemma parse_chars_unicode_escape (u : N) (text : jsstring) :
  u < 65536 →
  parse_chars (unicode_escape u ++ text)
  = '(t, rest) ← parse_chars text; Some (u :: t, rest).
Proof.
  intros Hu. unfold unicode_escape. cbn [app parse_chars].
  change (92 =? 34) with false. change (92 =? 92) with true.
  change (117 =? 117) with true. cbv iota.
  rewrite !hex_value_digit by dlia. cbn [mbind option_bind].
  replace (u / 4096 * 4096 + (u / 256) mod 16 * 256 + (u / 16) mod 16 * 16
           + u mod 16) with u by dlia.
  reflexivity.
Qed.

Lemma parse_chars_plain (u : N) (text : jsstring) :
  (u =? 34) = false → (u =? 92) = false → (u <? 32) = false →
  parse_chars (u :: text)
  = '(t, rest) ← parse_chars text; Some (u :: t, rest).
Proof. intros H1 H2 H3. cbn [parse_chars]. by rewrite H1, H2, H3. Qed.

Lemma parse_chars_short_escape (e c : N) (text : jsstring) :
  (e =? 117) = false → simple_escape e = Some c →
  parse_chars (92 :: e :: text)
  = '(t, rest) ← parse_chars text; Some (c :: t, rest).
Proof.
  intros H1 H2. cbn [parse_chars].
  change (92 =? 34) with false. change (92 =? 92) with true. cbv iota.
  by rewrite H1, H2.
Qed.

(** Reading a quoted string gives the string back. *)
Lemma parse_chars_quote_chars (s rest : jsstring) :
  bounded s →
  parse_chars (quote_chars s ++ 34 :: rest) = Some (s, rest).
Proof.
  remember (length s) as n eqn:Hn. revert s Hn.
  induction n as [n IH] using lt_wf_ind. intros s Hn Hs.
  destruct s as [|u r]; [reflexivity|].
  apply Forall_cons in Hs as [Hu Hr].
  assert (parse_chars (quote_chars r ++ 34 :: rest) = Some (r, rest)) as IHr
    by (apply (IH (length r)); [subst n; simpl; lia|done|done]).
  cbn [quote_chars].
  destruct (u =? 8) eqn:E8.
  { apply N.eqb_eq in E8 as ->. cbn [app].
    by rewrite (parse_chars_short_escape 98 8), IHr. }
  destruct (u =? 9) eqn:E9.
  { apply N.eqb_eq in E9 as ->. cbn [app].
    by rewrite (parse_chars_short_escape 116 9), IHr. }
  destruct (u =? 10) eqn:E10.
  { apply N.eqb_eq in E10 as ->. cbn [app].
    by rewrite (parse_chars_short_escape 110 10), IHr. }
  destruct (u =? 12) eqn:E12.
  { apply N.eqb_eq in E12 as ->. cbn [app].
    by rewrite (parse_chars_short_escape 102 12), IHr. }
  destruct (u =? 13) eqn:E13.
  { apply N.eqb_eq in E13 as ->. cbn [app].
    by rewrite (parse_chars_short_escape 114 13), IHr. }
  destruct (u =? 34) eqn:E34.
  { apply N.eqb_eq in E34 as ->. cbn [app].
    by rewrite (parse_chars_short_escape 34 34), IHr. }
  destruct (u =? 92) eqn:E92.
  { apply N.eqb_eq in E92 as ->. cbn [app].
    by rewrite (parse_chars_short_escape 92 92), IHr. }
  destruct (u <? 32) eqn:E32.
  { rewrite <- app_assoc.
    by rewrite parse_chars_unicode_escape, IHr. }
  destruct (is_high_surrogate u) eqn:Hh.
  - destruct r as [|v r'].
    + by rewrite parse_chars_unicode_escape.
    + destruct (is_low_surrogate v) eqn:Hl.
      * apply Forall_cons in Hr as [Hv Hr'].
        apply is_low_surrogate_range in Hl.
        cbn [app]. rewrite parse_chars_plain by done.
        rewrite parse_chars_plain;
          [|apply N.eqb_neq; lia|apply N.eqb_neq; lia|apply N.ltb_ge; lia].
        rewrite (IH (length r')); [done|subst n; simpl; lia|done|done].
      * rewrite <- app_assoc.
        by rewrite parse_chars_unicode_escape, IHr.
  - destruct (is_low_surrogate u) eqn:Hl.
    + rewrite <- app_assoc.
      by rewrite parse_chars_unicode_escape, IHr.
    + cbn [app]. by rewrite parse_chars_plain, IHr.
Qed.

Lemma parse_string_quote (s rest : jsstring) :
  bounded s →
  parse_string (QuoteJSONString s ++ rest) = Some (s, rest).
Proof.
  intros Hs. unfold parse_string, QuoteJSONString. cbn [app expect].
  change (34 =? 34) with true. cbn [mbind option_bind].
  rewrite <- app_assoc. by apply parse_chars_quote_chars.
Qed.

Lemma skip_ws_quote (s rest : jsstring) :
  skip_ws (QuoteJSONString s ++ rest) = QuoteJSONString s ++ rest.
Proof. reflexivity. Qed.

Lemma skip_ws_cons (u : N) (r : jsstring) :
  is_ws u = false → skip_ws (u :: r) = u :: r.
Proof. intros H. cbn [skip_ws]. by rewrite H. Qed.

Lemma expect_cons (c : N) (r : jsstring) : expect c (c :: r) = Some r.
Proof. cbn [expect]. by rewrite N.eqb_refl. Qed.

(** One member is read back, up to what follows it. *)
Lemma parse_member (k v rest : jsstring) :
  bounded k → bounded v →
  ('(k', s1) ← parse_string (skip_ws (member (k, v) ++ rest));
   s2 ← expect 58 (skip_ws s1);
   '(v', s3) ← parse_string (skip_ws s2);
   Some (k', v', s3))
  = Some (k, v, rest).
Proof.
  intros Hk Hv. unfold member. cbn [fst snd].
  rewrite <- app_assoc, skip_ws_quote, parse_string_quote by done.
  cbn [mbind option_bind]. rewrite <- app_comm_cons.
  rewrite skip_ws_cons by done. rewrite expect_cons.
  cbn [mbind option_bind].
  by rewrite skip_ws_quote, parse_string_quote.
Qed.

Lemma parse_members_step (fuel : nat) (k v rest : jsstring) (acc : jsobject) :
  bounded k → bounded v →
  parse_members (S fuel) (member (k, v) ++ rest) acc
  = match skip_ws rest with
    | u :: s4 =>
        if u =? 44 then parse_members fuel s4 (obj_define acc k v)
        else if u =? 125 then
          match skip_ws s4 with
          | [] => Some (obj_define acc k v)
          | _ => None
          end
        else None
    | [] => None
    end.
Proof.
  intros Hk Hv. cbn [parse_members].
  pose proof (parse_member k v rest Hk Hv) as H.
  destruct (parse_string (skip_ws (member (k, v) ++ rest))) as [[k' s1]|];
    [|done].
  cbn [mbind option_bind] in *.
  destruct (expect 58 (skip_ws s1)) as [s2|]; [|done].
  cbn [mbind option_bind] in *.
  destruct (parse_string (skip_ws s2)) as [[v' s3]|]; [|done].
  cbn [mbind option_bind] in *. by injection H as -> -> ->.
Qed.

(** The members of a serialised object are read back one after the
    other, each defined in turn. *)
Lemma parse_members_join (entries : jsobject) (acc : jsobject) (fuel : nat) :
  entries ≠ [] →
  (length entries ≤ fuel)%nat →
  Forall (fun kv => bounded (fst kv) ∧ bounded (snd kv)) entries →
  parse_members fuel (join [44] (map member entries) ++ [125]) acc
  = Some (foldl (fun a kv => obj_define a (fst kv) (snd kv)) acc entries).
Proof.
  revert acc fuel.
  induction entries as [|[k v] entries IH]; intros acc fuel Hne Hfuel Hb;
    [done|].
  apply Forall_cons in Hb as [[Hk Hv] Hb]. simpl in Hk, Hv.
  destruct fuel as [|fuel]; [simpl in Hfuel; lia|].
  destruct entries as [|e entries].
  - cbn [map join]. by rewrite parse_members_step.
  - cbn [map join]. rewrite <- app_assoc.
    rewrite parse_members_step by done.
    cbn [app]. rewrite skip_ws_cons by done.
    change (44 =? 44) with true. cbv iota.
    change (member e :: map member entries) with (map member (e :: entries)).
    rewrite IH; [reflexivity|done|simpl in *; lia|done].
Qed.

Lemma obj_define_fresh (o : jsobject) (k v : jsstring) :
  k ∉ o.*1 → obj_define o k v = o ++ [(k, v)].
Proof.
  induction o as [|[k' v'] o IH]; intros Hk; [reflexivity|].
  cbn [obj_define]. rewrite fmap_cons, not_elem_of_cons in Hk.
  destruct Hk as [Hne Hk]. simpl in Hne.
  rewrite decide_False by congruence. by rewrite IH.
Qed.

Lemma foldl_define_fresh (entries acc : jsobject) :
  NoDup (acc.*1 ++ entries.*1) →
  foldl (fun a kv => obj_define a (fst kv) (snd kv)) acc entries
  = acc ++ entries.
Proof.
  revert acc. induction entries as [|[k v] entries IH]; intros acc Hnd.
  - by rewrite app_nil_r.
  - cbn [foldl fst snd]. rewrite fmap_cons in Hnd. cbn [fst] in Hnd.
    rewrite obj_define_fresh.
    + rewrite IH; [by rewrite <- app_assoc|].
      rewrite fmap_app. cbn [fmap list_fmap fst]. by rewrite <- app_assoc.
    + apply NoDup_app in Hnd as (_ & Hdisj & _).
      intros Hin. apply (Hdisj k Hin). by left.
Qed.

Lemma insert_by_index_perm (e : N * (jsstring * jsstring))
    (l : list (N * (jsstring * jsstring))) :
  insert_by_index e l ≡ₚ e :: l.
Proof.
  induction l as [|e' l IH]; [done|].
  cbn [insert_by_index]. destruct (fst e <=? fst e'); [done|].
  rewrite IH. apply Permutation_swap.
Qed.

(** The order in which [JSON.stringify] visits the properties is a
    rearrangement of the properties. *)
Lemma own_entries_perm (o : jsobject) : own_entries o ≡ₚ o.
Proof.
  unfold own_entries. induction o as [|kv o IH]; [done|].
  cbn [omap list_omap].
  destruct (array_index (fst kv)) as [n|] eqn:Hidx; cbn [fmap option_fmap option_map].
  - rewrite filter_cons_False
      by (rewrite Hidx; intros H; by apply bool_decide_unpack in H).
    cbn [foldr]. rewrite insert_by_index_perm. cbn [map snd app].
    by rewrite IH.
  - rewrite filter_cons_True by (rewrite Hidx; by apply bool_decide_pack).
    rewrite <- Permutation_middle. by rewrite IH.
Qed.

Lemma own_entries_length (o : jsobject) : length (own_entries o) = length o.
Proof. by rewrite (own_entries_perm o). Qed.

Lemma own_entries_keys (o : jsobject) : NoDup o.*1 → NoDup (own_entries o).*1.
Proof. intros H. by rewrite (own_entries_perm o). Qed.

Lemma own_entries_map (o : jsobject) :
  NoDup o.*1 → obj_map (own_entries o) = obj_map o.
Proof.
  intros H. unfold obj_map. apply list_to_map_proper.
  - by apply own_entries_keys.
  - apply own_entries_perm.
Qed.

Lemma join_comma_length (parts : list jsstring) :
  (length parts ≤ S (length (join [44%N] parts)))%nat.
Proof.
  induction parts as [|p parts IH]; [simpl; lia|].
  destruct parts as [|q parts]; [simpl; lia|].
  change (join [44] (p :: q :: parts))
    with (p ++ [44] ++ join [44] (q :: parts)).
  rewrite !length_app. cbn [length] in *. lia.
Qed.

(** Parsing the serialised object gives its properties, in the order
    they were written. *)
Lemma JSON_roundtrip (o : jsobject) :
  NoDup o.*1 →
  Forall (fun kv => bounded (fst kv) ∧ bounded (snd kv)) o →
  JSON_parse (JSON_stringify o) = Some (own_entries o).
Proof.
  intros Hnd Hb. unfold JSON_parse, JSON_stringify.
  rewrite skip_ws_cons by done. rewrite expect_cons.
  cbn [mbind option_bind].
  assert (Forall (fun kv => bounded (fst kv) ∧ bounded (snd kv))
            (own_entries o)) as Hb'
    by (by rewrite (own_entries_perm o)).
  pose proof (own_entries_keys o Hnd) as Hnd'.
  fold member. change (fun kv => member kv) with member.
  destruct (own_entries o) as [|[k v] entries] eqn:Hown.
  - reflexivity.
  - assert (skip_ws (join [44] (map member ((k, v) :: entries)) ++ [125])
            = join [44] (map member ((k, v) :: entries)) ++ [125]) as ->.
    { cbn [map join]. destruct (map member entries); reflexivity. }
    assert (expect 125 (join [44] (map member ((k, v) :: entries)) ++ [125])
            = None) as ->.
    { cbn [map join]. destruct (map member entries); reflexivity. }
    rewrite parse_members_join; [|done| |done].
    + rewrite foldl_define_fresh; [done|]. by rewrite app_nil_l.
    + cbn [length]. rewrite length_app.
      pose proof (join_comma_length (map member ((k, v) :: entries))) as Hl.
      rewrite length_map in Hl. cbn [length] in *. lia.
Qed.

(** [decodeSession] reads back what [encode_files] wrote. *)
Lemma decode_encode_files (o : jsobject) :
  NoDup o.*1 →
  Forall (fun kv => bounded (fst kv) ∧ bounded (snd kv)) o →
  decodeSession (encode_files o) = Some (own_entries o).
Proof.
  intros Hnd Hb. unfold decodeSession, encode_files.
  assert (well_formed (JSON_stringify o) = true) as Hwf.
  { unfold JSON_stringify. rewrite well_formed_plain by lia.
    apply well_formed_app; [|done].
    apply join_well_formed; [done|].
    apply Forall_map. rewrite (own_entries_perm o).
    eapply Forall_impl; [exact Hb|].
    intros kv [Hk Hv]. by apply member_well_formed. }
  rewrite base64_roundtrip by (by apply utf8_encode_bytes).
  cbn [mbind option_bind]. rewrite utf8_roundtrip by done.
  cbn [mbind option_bind]. by apply JSON_roundtrip.
Qed.

(* ===================================================================== *)
(** * Properties: what [encodeSession] puts in the session string *)
(* ===================================================================== *)

Lemma lookup_path_snoc (root : node) (p : path) (name : jsstring) :
  lookup_path root (path_join p name)
  = match lookup_path root p with
    | Some (Dir children) => children !! name
    | _ => None
    end.
Proof.
  unfold path_join. revert root.
  induction p as [|c p IH]; intros root; cbn [app lookup_path].
  - destruct root as [| children | |]; try reflexivity.
    by destruct (children !! name).
  - destruct root as [| children | |]; try reflexivity.
    destruct (children !! c); [apply IH|reflexivity].
Qed.

Lemma obj_get_define (o : jsobject) (k v k' : jsstring) :
  obj_get (obj_define o k v) k'
  = if decide (k = k') then Some v else obj_get o k'.
Proof.
  induction o as [|[k0 v0] o IH]; cbn [obj_define obj_get].
  - destruct (decide (k = k')); reflexivity.
  - destruct (decide (k0 = k)) as [->|Hne]; cbn [obj_get].
    + destruct (decide (k = k')); reflexivity.
    + rewrite IH. destruct (decide (k0 = k')) as [->|]; [|reflexivity].
      by rewrite decide_False.
Qed.

Lemma obj_map_lookup (o : jsobject) (k : jsstring) :
  obj_map o !! k = obj_get o k.
Proof.
  unfold obj_map. induction o as [|[k0 v0] o IH]; [apply lookup_empty|].
  cbn [obj_get]. change (list_to_map ((k0, v0) :: o))
    with (<[k0 := v0]> (list_to_map o : gmap jsstring jsstring)).
  rewrite lookup_insert. destruct (decide (k0 = k)); [reflexivity|exact IH].
Qed.

Lemma obj_define_keys (o : jsobject) (k v : jsstring) :
  NoDup o.*1 → NoDup (obj_define o k v).*1.
Proof.
  intros Hnd. destruct (decide (k ∈ o.*1)) as [Hin|Hout].
  - assert ((obj_define o k v).*1 = o.*1) as ->; [|done].
    clear Hnd. induction o as [|[k0 v0] o IH]; cbn [obj_define].
    + by apply elem_of_nil in Hin.
    + destruct (decide (k0 = k)); [reflexivity|].
      rewrite !fmap_cons. rewrite IH; [done|].
      rewrite fmap_cons in Hin. apply elem_of_cons in Hin as [Heq|Hin];
        [|done]. simpl in Heq. congruence.
  - rewrite obj_define_fresh by done. rewrite fmap_app.
    apply NoDup_app. split; [done|]. split; [|apply NoDup_singleton].
    intros x Hx. cbn. rewrite list_elem_of_singleton. by intros ->.
Qed.

Lemma obj_set_keys (o : jsobject) (k v : jsstring) :
  NoDup o.*1 → NoDup (obj_set o k v).*1.
Proof.
  intros Hnd. unfold obj_set. destruct (decide (k = proto_key)); [done|].
  by apply obj_define_keys.
Qed.

Lemma gather_keys (children : gmap jsstring node) (files : jsobject)
    (names : list jsstring) :
  NoDup files.*1 → NoDup (gather children files names).*1.
Proof.
  unfold gather. revert files.
  induction names as [|name names IH]; intros files Hnd; [done|].
  cbn [foldl]. apply IH.
  destruct (children !! name) as [[content| | |]|]; try done.
  by apply obj_set_keys.
Qed.

Lemma obj_define_bounded (o : jsobject) (k v : jsstring) :
  Forall (fun kv => bounded (fst kv) ∧ bounded (snd kv)) o →
  bounded k → bounded v →
  Forall (fun kv => bounded (fst kv) ∧ bounded (snd kv)) (obj_define o k v).
Proof.
  intros Ho Hk Hv. induction o as [|[k0 v0] o IH]; cbn [obj_define].
  - by repeat constructor.
  - apply Forall_cons in Ho as [[Hk0 Hv0] Ho].
    destruct (decide (k0 = k)); constructor; try done. by apply IH.
Qed.

Lemma gather_bounded (children : gmap jsstring node) (files : jsobject)
    (names : list jsstring) :
  directory_bounded children →
  Forall (fun kv => bounded (fst kv) ∧ bounded (snd kv)) files →
  Forall (fun kv => bounded (fst kv) ∧ bounded (snd kv))
         (gather children files names).
Proof.
  intros Hb. unfold gather. revert files.
  induction names as [|name names IH]; intros files Hf; [done|].
  cbn [foldl]. apply IH.
  destruct (children !! name) as [[content| | |]|] eqn:Hn; try done.
  destruct (Hb name content Hn) as [Hname Hcontent].
  unfold obj_set. destruct (decide (name = proto_key)); [done|].
  by apply obj_define_bounded.
Qed.

(** A name the loop visited maps to the text of the file of that name,
    when it is a regular file and is not [__proto__]; the loop adds
    nothing else. *)
Lemma obj_get_gather (children : gmap jsstring node) (files : jsobject)
    (names : list jsstring) (k : jsstring) :
  obj_get (gather children files names) k
  = match children !! k with
    | Some (File content) =>
        if decide (k ∈ names ∧ k ≠ proto_key) then Some content
        else obj_get files k
    | _ => obj_get files k
    end.
Proof.
  unfold gather. revert files.
  induction names as [|name names IH]; intros files.
  - cbn [foldl]. destruct (children !! k) as [[content| | |]|]; try done;
      try (rewrite decide_False; [done|intros [H _]; by apply elem_of_nil in H]).
  - cbn [foldl]. rewrite IH. clear IH.
    destruct (children !! k) as [[content| | |]|] eqn:Hk.
    + destruct (decide (k ∈ names ∧ k ≠ proto_key)) as [[Hin Hne]|Hno].
      * rewrite decide_True; [done|]. split; [by right|done].
      * destruct (decide (name = k)) as [->|Hnk].
        -- rewrite Hk. unfold obj_set.
           destruct (decide (k = proto_key)) as [Hp|Hp].
           ++ rewrite decide_False; [done|]. intros [_ ?]. done.
           ++ rewrite obj_get_define, decide_True by done.
              rewrite decide_True; [done|]. split; [by left|done].
        -- assert (obj_get
                     match children !! name with
                     | Some (File c) => obj_set files name c
                     | _ => files
                     end k = obj_get files k) as ->.
           { destruct (children !! name) as [[c| | |]|]; try done.
             unfold obj_set. destruct (decide (name = proto_key)); [done|].
             by rewrite obj_get_define, decide_False. }
           rewrite decide_False; [done|]. intros [Hin Hne].
           apply elem_of_cons in Hin as [->|Hin]; [done|]. by apply Hno.
    + destruct (decide (name = k)) as [->|Hnk]; [by rewrite Hk|].
      destruct (children !! name) as [[c| | |]|]; try done.
      unfold obj_set. destruct (decide (name = proto_key)); [done|].
      by rewrite obj_get_define, decide_False.
    + destruct (decide (name = k)) as [->|Hnk]; [by rewrite Hk|].
      destruct (children !! name) as [[c| | |]|]; try done.
      unfold obj_set. destruct (decide (name = proto_key)); [done|].
      by rewrite obj_get_define, decide_False.
    + destruct (decide (name = k)) as [->|Hnk]; [by rewrite Hk|].
      destruct (children !! name) as [[c| | |]|]; try done.
      unfold obj_set. destruct (decide (name = proto_key)); [done|].
      by rewrite obj_get_define, decide_False.
    + destruct (decide (name = k)) as [->|Hnk]; [by rewrite Hk|].
      destruct (children !! name) as [[c| | |]|]; try done.
      unfold obj_set. destruct (decide (name = proto_key)); [done|].
      by rewrite obj_get_define, decide_False.
Qed.

Lemma readdir_names (children : gmap jsstring node) (k : jsstring) :
  k ∈ map fst (map_to_list children) ↔ is_Some (children !! k).
Proof.
  rewrite list_elem_of_In, in_map_iff. split.
  - intros ([k' n] & <- & Hin). apply list_elem_of_In in Hin.
    apply elem_of_map_to_list in Hin. by exists n.
  - intros [n Hn]. exists (k, n). split; [done|].
    apply list_elem_of_In. by apply elem_of_map_to_list.
Qed.

(** The mapping gathered from a whole directory: its regular files,
    but for one named [__proto__]. *)
Lemma gather_directory (children : gmap jsstring node) :
  obj_map (gather children [] (map fst (map_to_list children)))
  = delete proto_key (regular_files children).
Proof.
  apply map_eq. intros k.
  rewrite obj_map_lookup, obj_get_gather. unfold regular_files.
  destruct (decide (k = proto_key)) as [->|Hk].
  - rewrite lookup_delete_eq.
    destruct (children !! proto_key) as [[content| | |]|]; try done.
    rewrite decide_False; [done|]. by intros [_ ?].
  - rewrite lookup_delete_ne by done. rewrite lookup_omap.
    destruct (children !! k) as [[content| | |]|] eqn:Hc; try done.
    rewrite decide_True; [done|]. split; [|done].
    apply readdir_names. by rewrite Hc.
Qed.

Section Directory.

(** A directory of a tree, by its path, and what it holds. *)
Variables (root : node) (p : path) (children : gmap jsstring node).
Hypothesis directory : lookup_path root p = Some (Dir children).

(** If the loop of the first copy returns, it has gathered the regular
    files among the names it visited. *)
Lemma collectFiles_tree (names : list jsstring) (files result : jsobject) :
  collectFiles (tree_fs root) p names files = Return result →
  result = gather children files names.
Proof.
  revert files.
  induction names as [|name names IH]; intros files; cbn [collectFiles].
  - by intros [= <-].
  - cbn [tree_fs statSync readFileSync].
    rewrite lookup_path_snoc, directory. unfold gather. cbn [foldl].
    destruct (children !! name) as [[content| | |]|]; simpl;
      try discriminate; apply IH.
Qed.

(** It returns when no name it visits is missing or dangling. *)
Lemma collectFiles_tree_returns (names : list jsstring) (files : jsobject) :
  Forall (fun name => ∃ n, children !! name = Some n ∧ n ≠ Dangling) names →
  collectFiles (tree_fs root) p names files
  = Return (gather children files names).
Proof.
  intros Hnames. revert files.
  induction Hnames as [|name names (n & Hn & Hd) _ IH]; intros files;
    cbn [collectFiles]; [reflexivity|].
  cbn [tree_fs statSync readFileSync].
  rewrite lookup_path_snoc, directory, Hn. unfold gather. cbn [foldl].
  rewrite Hn. destruct n; simpl; try done; apply IH.
Qed.

(** The first copy returns a string when [creds.json] is there and no
    entry of the directory is a dangling link. *)
Lemma encodeSession_returns_string (marker : node) :
  children !! creds_json = Some marker →
  (∀ name, children !! name ≠ Some Dangling) →
  encodeSession (tree_fs root) p
  = Return (Some (encode_files
                    (gather children [] (map fst (map_to_list children))))).
Proof.
  intros Hm Hd. rewrite encodeSession_catches. unfold encodeSession_try.
  cbn [tree_fs existsSync readdirSync].
  rewrite lookup_path_snoc, directory, Hm.
  assert (marker ≠ Dangling) as Hmd by (intros ->; by apply (Hd creds_json)).
  assert (negb match marker with
               | Dangling => false
               | _ => true
               end = false) as -> by (by destruct marker).
  cbn [rbind]. rewrite collectFiles_tree_returns; [done|].
  apply Forall_forall. intros name Hin. apply readdir_names in Hin as [n Hn].
  exists n. split; [done|]. intros ->. by apply (Hd name).
Qed.

(** Reading the string back gives the regular files of the directory
    (but for one named [__proto__]) and nothing from below. *)
Lemma encodeSession_roundtrip (marker : node) :
  children !! creds_json = Some marker →
  (∀ name, children !! name ≠ Some Dangling) →
  directory_bounded children →
  ∃ blob files,
    encodeSession (tree_fs root) p = Return (Some blob)
    ∧ decodeSession blob = Some files
    ∧ obj_map files = delete proto_key (regular_files children).
Proof.
  intros Hm Hd Hb.
  set (gathered := gather children [] (map fst (map_to_list children))).
  assert (NoDup gathered.*1) as Hnd by (apply gather_keys; constructor).
  exists (encode_files gathered), (own_entries gathered).
  split; [by eapply encodeSession_returns_string|]. split.
  - apply decode_encode_files; [done|]. by apply gather_bounded.
  - rewrite own_entries_map by done. apply gather_directory.
Qed.

End Directory.

(** Whenever the first copy returns a string on a tree, the string
    encodes the regular files directly in the directory (but for one
    named [__proto__]) and nothing from below. *)
Lemma encodeSession_contents (root : node) (p : path) (blob : jsstring) :
  encodeSession (tree_fs root) p = Return (Some blob) →
  ∃ children files,
    lookup_path root p = Some (Dir children)
    ∧ blob = encode_files files
    ∧ NoDup files.*1
    ∧ obj_map files = delete proto_key (regular_files children).
Proof.
  rewrite encodeSession_catches. unfold encodeSession_try.
  destruct (existsSync (tree_fs root) (path_join p creds_json)) eqn:Hex;
    cbn [negb]; [|discriminate].
  cbn [tree_fs existsSync] in Hex. rewrite lookup_path_snoc in Hex.
  destruct (lookup_path root p) as [[|children| |]|] eqn:Hp; try discriminate.
  cbn [tree_fs readdirSync]. rewrite Hp. cbn [rbind].
  destruct (collectFiles _ p (map fst (map_to_list children)) [])
    as [files|e] eqn:Hc; cbn [rbind]; [|discriminate].
  intros [= <-]. exists children, files.
  apply (collectFiles_tree root p children Hp) in Hc. subst files.
  split; [done|]. split; [done|]. split.
  - apply gather_keys. constructor.
  - apply gather_directory.
Qed.

Lemma bounded_check (s : jsstring) :
  forallb (fun u => u <? 65536) s = true → bounded s.
Proof.
  intros H. apply Forall_forall. intros u Hu.
  rewrite forallb_forall in H. apply N.ltb_lt, H. by apply list_elem_of_In.
Qed.

Lemma directory_ab_creds_lookup (credentials : jsstring) (name : jsstring)
    (n : node) :
  directory_ab_creds credentials !! name = Some n →
  (name = creds_json ∧ n = File credentials)
  ∨ (name = js "a" ∧ n = File (js "x"))
  ∨ (name = js "b" ∧ n = File (js "y")).
Proof.
  unfold directory_ab_creds, directory_ab.
  rewrite !lookup_insert_Some, lookup_empty.
  intros [[<- <-]|[_ [[<- <-]|[_ [[<- <-]|[_ ?]]]]]]; auto. done.
Qed.

(** C3, as amended. A directory that holds [creds.json], with any text,
    next to the files [a] (text ["x"]) and [b] (text ["y"]) is encoded
    to a string, and decoding the string (base64, then UTF-8, then
    JSON) gives exactly the mapping of the three files. *)
Theorem encode_decode_with_marker (credentials : jsstring) :
  bounded credentials →
  ∃ blob files,
    encodeSession (tree_fs (Dir (directory_ab_creds credentials))) []
      = Return (Some blob)
    ∧ decodeSession blob = Some files
    ∧ obj_map files
      = <[creds_json := credentials]>
          (<[js "a" := js "x"]> (<[js "b" := js "y"]> ∅)).
Proof.
  intros Hc.
  destruct (encodeSession_roundtrip
              (Dir (directory_ab_creds credentials)) []
              (directory_ab_creds credentials) eq_refl (File credentials))
    as (blob & files & Henc & Hdec & Hmap).
  - reflexivity.
  - intros name Hd.
    apply directory_ab_creds_lookup in Hd as [[_ ?]|[[_ ?]|[_ ?]]]; done.
  - intros name content Hn.
    apply directory_ab_creds_lookup in Hn as [[-> Hn]|[[-> Hn]|[-> Hn]]];
      injection Hn as ->.
    + split; [by apply bounded_check|exact Hc].
    + split; by apply bounded_check.
    + split; by apply bounded_check.
  - exists blob, files. split; [done|]. split; [done|].
    rewrite Hmap. vm_compute. reflexivity.
Qed.

Lemma encode_decode_with_marker_witness :
  ∃ blob files,
    encodeSession (tree_fs (Dir (directory_ab_creds (js "{}")))) []
      = Return (Some blob)
    ∧ decodeSession blob = Some files
    ∧ obj_map files
      = <[creds_json := js "{}"]>
          (<[js "a" := js "x"]> (<[js "b" := js "y"]> ∅)).
Proof.
  apply (encode_decode_with_marker (js "{}")).
  apply bounded_check. reflexivity.
Defined.

(** C3 as stated fails: the directory that holds exactly the
    files [a] and [b] has no [creds.json], so [encodeSession] returns
    [null] and there is no string to decode. *)
Lemma encode_decode_counterexample :
  encodeSession (tree_fs (Dir directory_ab)) [] = Return None
  ∧ ¬ ∃ blob files,
        encodeSession (tree_fs (Dir directory_ab)) [] = Return (Some blob)
        ∧ decodeSession blob = Some files
        ∧ obj_map files = <[js "a" := js "x"]> (<[js "b" := js "y"]> ∅).
Proof.
  assert (encodeSession (tree_fs (Dir directory_ab)) [] = Return None) as H
    by (vm_compute; reflexivity).
  split; [exact H|]. intros (blob & files & Hblob & _). congruence.
Qed.

(** The second copy returns [null] on every directory that has a
    subdirectory. *)
Lemma encodeSession2_any_subdirectory (root : node) (p : path)
    (children below : gmap jsstring node) (name : jsstring) :
  lookup_path root p = Some (Dir children) →
  children !! name = Some (Dir below) →
  encodeSession2 (tree_fs root) p = Return None.
Proof.
  intros Hp Hname. rewrite encodeSession2_catches. unfold encodeSession2_try.
  destruct (existsSync (tree_fs root) (path_join p creds_json)); [|done].
  cbn [negb tree_fs readdirSync]. rewrite Hp. cbn [rbind].
  destruct (collectFiles2_read_failure (tree_fs root) p
              (map fst (map_to_list children)) name EISDIR []) as [e He].
  - apply readdir_names. by rewrite Hname.
  - cbn [tree_fs readFileSync]. by rewrite lookup_path_snoc, Hp, Hname.
  - by rewrite He.
Qed.

(** C5. The second copy reads every entry without asking [stat]: on a
    session directory with a subdirectory it returns [null] and no
    mapping at all, where the first copy returns the string of the
    regular files (here [creds.json] alone, nothing from below
    [keys]). *)
Theorem encodeSession2_subdirectory :
  encodeSession2 (tree_fs (Dir directory_with_subdirectory)) [] = Return None
  ∧ regular_files directory_with_subdirectory
    = <[creds_json := js "{}"]> ∅
  ∧ ∃ blob files,
      encodeSession (tree_fs (Dir directory_with_subdirectory)) []
        = Return (Some blob)
      ∧ decodeSession blob = Some files
      ∧ obj_map files = regular_files directory_with_subdirectory.
Proof.
  split; [vm_compute; reflexivity|]. split; [vm_compute; reflexivity|].
  eexists _, _. split; [vm_compute; reflexivity|].
  split; vm_compute; reflexivity.
Qed.

(** In every copy a regular file named [__proto__] is left out of the
    mapping: the assignment [files['__proto__'] = content] defines no
    property. *)
Example encodeSession_leaves_out_proto :
  regular_files directory_with_proto !! proto_key = Some (js "x")
  ∧ ∃ blob files,
      encodeSession (tree_fs (Dir directory_with_proto)) []
        = Return (Some blob)
      ∧ encodeSession2 (tree_fs (Dir directory_with_proto)) []
        = Return (Some blob)
      ∧ decodeSession blob = Some files
      ∧ obj_map files = <[creds_json := js "{}"]> ∅.
Proof.
  split; [vm_compute; reflexivity|].
  eexists _, _. split; [vm_compute; reflexivity|].
  split; [vm_compute; reflexivity|].
  split; vm_compute; reflexivity.
Qed.

(* ===================================================================== *)
(** * Further properties: [generateId] *)
(* ===================================================================== *)

Lemma substring_length (s : jsstring) (a b : nat) :
  (a ≤ b)%nat → (length (substring s a b) ≤ b - a)%nat.
Proof. intros Hab. unfold substring. rewrite length_take. lia. Qed.

Lemma substring_sublist (s : jsstring) (a b : nat) (u : N) :
  u ∈ substring s a b → u ∈ s.
Proof.
  unfold substring. intros H.
  apply (subseteq_take _ _), (subseteq_drop _ _) in H. exact H.
Qed.

Lemma toUpperCase_base36 (s : jsstring) :
  Forall (fun u => is_base36_digit u = true) s →
  Forall (fun u => 48 ≤ u ≤ 57 ∨ 65 ≤ u ≤ 90) (toUpperCase s).
Proof.
  intros H. unfold toUpperCase. apply Forall_map.
  eapply Forall_impl; [exact H|]. intros u Hu. simpl.
  unfold is_base36_digit, is_digit in Hu.
  destruct ((97 <=? u) && (u <=? 122)) eqn:Hl.
  - apply andb_true_iff in Hl as [H1 H2]. apply N.leb_le in H1, H2. lia.
  - rewrite orb_false_r in Hu. apply andb_true_iff in Hu as [H1 H2].
    apply N.leb_le in H1, H2. lia.
Qed.

Lemma randomTailOf_base36 (text : jsstring) :
  random_text text →
  Forall (fun u => 48 ≤ u ≤ 57 ∨ 65 ≤ u ≤ 90) (randomTailOf text).
Proof.
  intros Ht. unfold randomTailOf. apply toUpperCase_base36.
  apply Forall_forall. intros u Hu.
  destruct Ht as [->|(digits & -> & Hd)].
  - by apply elem_of_nil in Hu.
  - rewrite Forall_forall in Hd. apply Hd.
    unfold substring in Hu. apply (subseteq_take _ _) in Hu.
    simpl in Hu. destruct digits; exact Hu.
Qed.

(** The ids of [generateId] are path components, which is what
    [sessionPath] asks of a session id. *)
Lemma generateId_component (randomText : jsstring) :
  random_text randomText →
  is_path_component (generateId (randomTailOf randomText)) = true.
Proof.
  intros Ht. pose proof (randomTailOf_base36 randomText Ht) as Htail.
  unfold is_path_component, generateId.
  change (js "ALMEER_") with [65; 76; 77; 69; 69; 82; 95].
  rewrite !bool_decide_eq_false_2 by discriminate. cbn [negb andb].
  apply forallb_forall. intros u Hu. apply list_elem_of_In in Hu.
  assert (48 ≤ u ≤ 57 ∨ 65 ≤ u ≤ 90 ∨ u = 95) as Hr.
  { apply elem_of_app in Hu as [Hu|Hu].
    - apply list_elem_of_In in Hu. simpl in Hu.
      repeat (destruct Hu as [<-|Hu]; [lia|]). destruct Hu.
    - rewrite Forall_forall in Htail. specialize (Htail u Hu). lia. }
  apply negb_true_iff, orb_false_iff. split; [apply orb_false_iff; split|];
    apply N.eqb_neq; lia.
Qed.

(** X1. A generated id is ['ALMEER_'] followed by at most 13 characters,
    each a digit or a capital letter; it is at most 20 code units long
    and holds no path separator, no dot and no NUL, so it names one
    entry of the [sessions] directory. *)
Theorem generateId_shape (randomText : jsstring) :
  random_text randomText →
  let sessionId := generateId (randomTailOf randomText) in
  take 7 sessionId = js "ALMEER_"
  ∧ (length sessionId ≤ 20)%nat
  ∧ Forall (fun u => 48 ≤ u ≤ 57 ∨ 65 ≤ u ≤ 90) (drop 7 sessionId)
  ∧ Forall (fun u => u ≠ 47 ∧ u ≠ 92 ∧ u ≠ 46 ∧ u ≠ 0) sessionId.
Proof.
  intros Ht. cbv zeta.
  pose proof (randomTailOf_base36 randomText Ht) as Htail.
  unfold generateId.
  change (js "ALMEER_") with [65; 76; 77; 69; 69; 82; 95].
  split; [reflexivity|]. split.
  - rewrite length_app. unfold randomTailOf, toUpperCase.
    rewrite length_map. pose proof (substring_length randomText 2 15).
    simpl. lia.
  - split; [exact Htail|].
    apply Forall_app. split.
    + repeat (constructor; [lia|]). constructor.
    + eapply Forall_impl; [exact Htail|]. intros u Hu. simpl in Hu. lia.
Qed.

Lemma generateId_shape_witness :
  let sessionId := generateId (randomTailOf (js "0.k3j9x0qz1abcdefgh")) in
  take 7 sessionId = js "ALMEER_"
  ∧ (length sessionId ≤ 20)%nat
  ∧ Forall (fun u => 48 ≤ u ≤ 57 ∨ 65 ≤ u ≤ 90) (drop 7 sessionId)
  ∧ Forall (fun u => u ≠ 47 ∧ u ≠ 92 ∧ u ≠ 46 ∧ u ≠ 0) sessionId.
Proof.
  apply (generateId_shape (js "0.k3j9x0qz1abcdefgh")).
  right. eexists. split; [reflexivity|].
  apply Forall_forall. intros u Hu. apply list_elem_of_In in Hu.
  vm_compute in Hu. repeat (destruct Hu as [<-|Hu]; [reflexivity|]).
  destruct Hu.
Defined.

(* ===================================================================== *)
(** * Further properties: the outcomes of [POST /api/pair] *)
(* ===================================================================== *)

Lemma ensureDirSync_effect (env : Env) (sessionId : jsstring) (w w1 : World) :
  ensureDirSync env sessionId w = (Return (), w1) →
  sessions w1 = sessions w
  ∧ endCalls w1 = endCalls w
  ∧ (∃ children, disk w1 !! sessionId = Some (Dir children))
  ∧ ∀ other, other ≠ sessionId → disk w1 !! other = disk w !! other.
Proof.
  unfold ensureDirSync.
  destruct (ensureDirSync_error env sessionId); [discriminate|].
  destruct (disk w !! sessionId) as [[| children | |]|] eqn:Hd;
    try discriminate; intros [= <-]; simpl.
  - eauto 6.
  - rewrite lookup_insert_eq. split; [done|]. split; [done|].
    split; [eauto|]. intros other Ho. by rewrite lookup_insert_ne.
Qed.

Lemma ensureDirSync_throws (env : Env) (sessionId : jsstring) (w w1 : World)
    (e : exn) :
  ensureDirSync env sessionId w = (Throw e, w1) → w1 = w.
Proof.
  unfold ensureDirSync.
  destruct (ensureDirSync_error env sessionId); [by intros [= _ <-]|].
  destruct (disk w !! sessionId) as [[| children | |]|];
    try discriminate; by intros [= _ <-].
Qed.

(** [cleanupSession] in a [catch] returns; the handler goes on to its
    response. *)
Ltac finish_cleanup :=
  match goal with
  | |- context [cleanupSessionOf ?c ?env ?id ?w0] =>
      let Hr := fresh "Hr" in
      pose proof (cleanupSessionOf_returns c env id w0) as Hr;
      destruct (cleanupSessionOf c env id w0) as [?r ?w];
      simpl in Hr; subst; reflexivity
  end.

(** Past the phone check the handler ends in one of three ways: the
    code was obtained; something threw before or at [makeWASocket];
    [requestPairingCode] threw. *)
Lemma pair_valid_cases (c : copy) (env : Env) (o : PairOracle) (s : jsstring)
    (w : World) :
  (minDigits c ≤ length (stripNonDigits s))%nat →
  let sessionId := generateId (randomTail o) in
  let w1 := snd (ensureDirSync env sessionId w) in
  (∃ k code,
     fst (ensureDirSync env sessionId w) = Return ()
     ∧ newSocket o = Return k ∧ pairingCode o = Return code
     ∧ pair c env o (VString s) w
       = (Return (response_generated sessionId code),
          registered sessionId (fresh_record k (stripNonDigits s) (now o)) w1))
  ∨ (∃ e,
       pair c env o (VString s) w
       = (Return (response_failed (msgServerError c (message e))),
          snd (cleanupSessionOf c env sessionId w1)))
  ∨ (∃ e k,
       fst (ensureDirSync env sessionId w) = Return ()
       ∧ pair c env o (VString s) w
         = (Return (response_failed (msgPairingFailed c (message e))),
            snd (cleanupSessionOf c env sessionId
                   (registered sessionId
                      (fresh_record k (stripNonDigits s) (now o)) w1)))).
Proof.
  intros Hlen. cbv zeta.
  assert (s ≠ []) as Hs by (intros ->; destruct c; simpl in Hlen; lia).
  set (id := generateId (randomTail o)).
  unfold pair. fold id. cbn [truthy].
  rewrite (bool_decide_eq_false_2 _ Hs). cbn [negb].
  unfold ebind, etry, lift, sessions_set, eret. cbn [phone_replace].
  apply Nat.ltb_ge in Hlen. rewrite Hlen.
  unfold registered, fresh_record, response_failed, response_generated.
  destruct (ensureDirSync env id w) as [[[]|e] w1] eqn:Hdir; cbn [fst snd].
  2:{ right. left. exists e. finish_cleanup. }
  destruct (authState o) as [[]|e].
  2:{ right. left. exists e. finish_cleanup. }
  destruct (latestVersion o) as [[]|e].
  2:{ right. left. exists e. finish_cleanup. }
  destruct (newSocket o) as [k|e].
  2:{ right. left. exists e. finish_cleanup. }
  destruct (pairingCode o) as [code|e].
  - left. exists k, code. done.
  - right. right. exists e, k. split; [done|]. finish_cleanup.
Qed.

(** What the second copy of [cleanupSession] leaves behind: as the
    first, but a throwing [end()] keeps the record. *)
Lemma cleanupSession2_world (env : Env) (sessionId : jsstring) (w : World) :
  snd (cleanupSession2 env sessionId w) =
    if existsSync (fs_of w) (sessionPath sessionId)
       && bool_decide (is_Some (removeSync_error env sessionId))
    then w
    else
      {| sessions :=
           match sessions w !! sessionId with
           | Some s =>
               match end_error env (sock s) with
               | Some _ => sessions w
               | None => delete sessionId (sessions w)
               end
           | None => delete sessionId (sessions w)
           end;
         disk := if existsSync (fs_of w) (sessionPath sessionId)
                 then delete sessionId (disk w) else disk w;
         endCalls := match sessions w !! sessionId with
                     | Some s => endCalls w ++ [sock s]
                     | None => endCalls w
                     end |}.
Proof. by cleanup_cases env sessionId w. Qed.

Lemma existsSync_after_removal (w : World) (sessionId : jsstring)
    (sessions' : gmap jsstring Session) (calls : list nat) :
  existsSync
    (fs_of {| sessions := sessions';
              disk := if existsSync (fs_of w) (sessionPath sessionId)
                      then delete sessionId (disk w) else disk w;
              endCalls := calls |})
    (sessionPath sessionId) = false.
Proof.
  rewrite existsSync_sessionPath. cbn [disk].
  rewrite (existsSync_sessionPath w).
  destruct (disk w !! sessionId) as [[]|] eqn:Hd;
    rewrite ?lookup_delete_eq, ?Hd; reflexivity.
Qed.

(** When [removeSync] does not fail (and, in the second copy, [end()]
    does not throw), [cleanupSession] leaves no record and no
    directory. *)
Lemma cleanupSessionOf_released (c : copy) (env : Env) (sessionId : jsstring)
    (w : World) :
  removeSync_error env sessionId = None →
  (c = Copy2 → ∀ s, sessions w !! sessionId = Some s →
                    end_error env (sock s) = None) →
  sessions (snd (cleanupSessionOf c env sessionId w)) !! sessionId = None
  ∧ existsSync (fs_of (snd (cleanupSessionOf c env sessionId w)))
      (sessionPath sessionId) = false.
Proof.
  intros Hrm Hend.
  assert (existsSync (fs_of w) (sessionPath sessionId)
          && bool_decide (is_Some (removeSync_error env sessionId)) = false)
    as Hgo.
  { rewrite Hrm, bool_decide_eq_false_2 by (by intros [? ?]).
    apply andb_false_r. }
  destruct c; simpl;
    rewrite ?cleanupSession_world, ?cleanupSession2_world, Hgo;
    (split; [|apply existsSync_after_removal]); simpl;
    try apply lookup_delete_eq.
  destruct (sessions w !! sessionId) as [s|] eqn:Hs;
    [|apply lookup_delete_eq].
  rewrite (Hend eq_refl s eq_refl). apply lookup_delete_eq.
Qed.

Lemma pair_rejects_short_or_empty (c : copy) (env : Env) (o : PairOracle)
    (s : jsstring) (w : World) :
  (length (stripNonDigits s) < minDigits c)%nat →
  ∃ r, pair c env o (VString s) w = (Return r, w) ∧ httpStatus r = 400.
Proof.
  intros Hlt. destruct (decide (s = [])) as [->|Hs].
  - eexists. split; [by apply pair_missing_phone|reflexivity].
  - eexists. split; [by apply pair_short_phone|reflexivity].
Qed.

(** X2. For a phone that is a string, the handler answers 400 exactly
    when the phone has fewer digits than the threshold of the copy (7,
    10, 7): a phone with that many digits or more is never answered
    400, whatever the library does afterwards. *)
Theorem pair_400_exactly (c : copy) (env : Env) (o : PairOracle)
    (s : jsstring) (w : World) :
  (∃ r, fst (pair c env o (VString s) w) = Return r ∧ httpStatus r = 400)
  ↔ (length (stripNonDigits s) < minDigits c)%nat.
Proof.
  split.
  - intros (r & Hr & H400).
    destruct (decide (length (stripNonDigits s) < minDigits c)%nat)
      as [|Hge]; [done|]. exfalso.
    destruct (pair_valid_cases c env o s w ltac:(lia))
      as [(k & code & _ & _ & _ & Hp)|[(e & Hp)|(e & k & _ & Hp)]];
      rewrite Hp in Hr; injection Hr as <-; discriminate.
  - intros Hlt.
    destruct (pair_rejects_short_or_empty c env o s w Hlt) as (r & Hp & H400).
    exists r. by rewrite Hp.
Qed.

(** X3. The handler throws in one case only, a truthy [phone] that is
    not a string, and then the world is untouched.  In every other case
    it answers: with 200 and [success: true], or with 400 or 500 and
    [success: false]; a failure of the file system or of the library
    never leaves the handler as an exception. *)
Theorem pair_answers_or_type_error (c : copy) (env : Env) (o : PairOracle)
    (phone : jsvalue) (w : World) :
  (∃ r w', pair c env o phone w = (Return r, w')
           ∧ ((httpStatus r = 200 ∧ field "success" r = Some (VBool true))
              ∨ ((httpStatus r = 400 ∨ httpStatus r = 500)
                 ∧ field "success" r = Some (VBool false))))
  ∨ (pair c env o phone w = (Throw TypeError_replace, w)
     ∧ truthy phone = true ∧ ∀ s, phone ≠ VString s).
Proof.
  destruct (truthy phone) eqn:Ht.
  2:{ left. eexists _, _. split; [by apply pair_missing_phone|].
      right. split; [by left|reflexivity]. }
  destruct phone as [| |b|n|s|];
    try (right; split; [by apply pair_phone_not_a_string|by split]).
  left. destruct (decide (length (stripNonDigits s) < minDigits c)%nat)
    as [Hlt|Hge].
  - destruct (pair_rejects_short_or_empty c env o s w Hlt)
      as (r & Hp & H400).
    exists r, w. split; [done|]. right. split; [by left|].
    destruct (decide (s = [])) as [->|Hs].
    + rewrite pair_missing_phone in Hp by done. by injection Hp as <-.
    + rewrite pair_short_phone in Hp by done. by injection Hp as <-.
  - destruct (pair_valid_cases c env o s w ltac:(lia))
      as [(k & code & _ & _ & _ & Hp)|[(e & Hp)|(e & k & _ & Hp)]];
      eexists _, _; (split; [exact Hp|]).
    + by left.
    + right. split; [by right|reflexivity].
    + right. split; [by right|reflexivity].
Qed.

(** Unless the phone is a string with enough digits, the handler
    answers 400 or throws. *)
Lemma pair_answers_not_200 (c : copy) (env : Env) (o : PairOracle)
    (phone : jsvalue) (w : World) :
  ((∃ r, pair c env o phone w = (Return r, w) ∧ httpStatus r = 400)
   ∨ pair c env o phone w = (Throw TypeError_replace, w))
  ∨ ∃ s, phone = VString s
         ∧ (minDigits c ≤ length (stripNonDigits s))%nat.
Proof.
  destruct (truthy phone) eqn:Ht.
  2:{ left. left. eexists. split; [by apply pair_missing_phone|done]. }
  destruct phone as [| |b|n|s|];
    try (left; right; by apply pair_phone_not_a_string).
  destruct (decide (length (stripNonDigits s) < minDigits c)%nat)
    as [Hlt|Hge].
  - left. left. by apply pair_rejects_short_or_empty.
  - right. exists s. split; [done|lia].
Qed.

(** On a string, the [code] field is the formatted string. *)
Lemma formattedCode_plain (raw : jsstring) :
  Forall (fun u => is_line_terminator u = false) raw →
  formattedCode (CodeString raw) = VString (join (js "-") (chunk4 raw)).
Proof. intros Hraw. unfold formattedCode. by rewrite formatCode_plain. Qed.

(** A 200 answer: the phone was a string with enough digits, the
    directory was made, and the socket and the code were obtained. *)
Lemma pair_200_cases (c : copy) (env : Env) (o : PairOracle)
    (phone : jsvalue) (w w' : World) (r : Response) :
  pair c env o phone w = (Return r, w') →
  httpStatus r = 200 →
  ∃ s k code,
    phone = VString s
    ∧ (minDigits c ≤ length (stripNonDigits s))%nat
    ∧ fst (ensureDirSync env (generateId (randomTail o)) w) = Return ()
    ∧ pairingCode o = Return code
    ∧ r = response_generated (generateId (randomTail o)) code
    ∧ w' = registered (generateId (randomTail o))
             (fresh_record k (stripNonDigits s) (now o))
             (snd (ensureDirSync env (generateId (randomTail o)) w)).
Proof.
  intros Hp H200.
  destruct (pair_answers_not_200 c env o phone w) as [Hno|(s & -> & Hlen)].
  { exfalso. destruct Hno as [(r0 & Hp0 & Hr0)|Hthrow].
    - rewrite Hp0 in Hp. injection Hp as <- _. lia.
    - rewrite Hthrow in Hp. discriminate. }
  destruct (pair_valid_cases c env o s w Hlen)
    as [(k & code & Hdir & _ & Hcode & Hp1)|[(e & Hp1)|(e & k & _ & Hp1)]];
    rewrite Hp1 in Hp; injection Hp as <- <-; try discriminate.
  by exists s, k, code.
Qed.

(** C9. When the pairing-code request succeeds with a pairing code, a
    string without line terminators, the handler answers 200 with
    [success], [code], [sessionId] and [message], where [code] is the
    raw code cut from the left into groups of at most four code units
    joined by ['-']; and the session stays pending: its record is
    pending when the response is sent, and [GET /api/status] asked at
    that point answers [pending]. *)
Theorem pair_code_grouped (c : copy) (env : Env) (o : PairOracle)
    (phone : jsvalue) (w w' : World) (r : Response) (raw : jsstring) :
  pair c env o phone w = (Return r, w') →
  httpStatus r = 200 →
  pairingCode o = Return (CodeString raw) →
  Forall (fun u => is_line_terminator u = false) raw →
  let sessionId := generateId (randomTail o) in
  r = {| httpStatus := 200;
         body := [("success", VBool true);
                  ("code", VString (join (js "-") (chunk4 raw)));
                  ("sessionId", VString sessionId);
                  ("message", VString (js "Pairing code generated!"))] |}
  ∧ concat (chunk4 raw) = raw
  ∧ Forall (fun g => (1 ≤ length g ≤ 4)%nat) (chunk4 raw)
  ∧ (∃ record, sessions w' !! sessionId = Some record
               ∧ status record = pending)
  ∧ statusHandler w' sessionId
    = {| httpStatus := 200; body := [("status", VString pending)] |}.
Proof.
  intros Hp H200 Hcode Hraw. cbv zeta.
  destruct (pair_200_cases c env o phone w w' r Hp H200)
    as (s & k & code & _ & _ & _ & Hcode' & -> & ->).
  assert (code = CodeString raw) as -> by congruence.
  split.
  { unfold response_generated. by rewrite (formattedCode_plain raw Hraw). }
  split; [apply chunk4_concat|]. split; [apply chunk4_groups|].
  unfold statusHandler, registered. cbn [sessions].
  rewrite lookup_insert_eq. split; [|reflexivity].
  eexists. split; reflexivity.
Qed.

Lemma pair_code_grouped_witness :
  let o := smooth (CodeString (js "ABCD1234")) in
  let out := pair Copy1 calm o (VString (js "+254 712 345 678")) initial in
  ∃ r, fst out = Return r
       ∧ field "code" r = Some (VString (js "ABCD-1234"))
       ∧ statusHandler (snd out) (generateId (randomTail o))
         = {| httpStatus := 200; body := [("status", VString pending)] |}.
Proof.
  cbv zeta.
  destruct (pair_code_grouped Copy1 calm (smooth (CodeString (js "ABCD1234")))
              (VString (js "+254 712 345 678")) initial
              (snd (pair Copy1 calm (smooth (CodeString (js "ABCD1234")))
                      (VString (js "+254 712 345 678")) initial))
              (response_generated
                 (generateId (randomTail (smooth (CodeString (js "ABCD1234")))))
                 (CodeString (js "ABCD1234")))
              (js "ABCD1234"))
    as (Hr & _ & _ & _ & Hstatus).
  - vm_compute. reflexivity.
  - reflexivity.
  - reflexivity.
  - vm_compute. repeat constructor.
  - eexists. split; [vm_compute; reflexivity|].
    split; [vm_compute; reflexivity|exact Hstatus].
Defined.

(** X4. Whenever the handler answers 200, the phone was a string with
    enough digits, and the world holds what the answer promises: under
    the [sessionId] of the answer a pending record with a [null]
    session string, whose [phone] is the digits of the phone in their
    order and nothing else; its directory on disk; the [code] of the
    answer is the formatted pairing code ([null] for a code that is
    [null], no field for one that is [undefined]); no [end()] was called
    and no other record or directory was touched. *)
Theorem pair_200_registered (c : copy) (env : Env) (o : PairOracle)
    (phone : jsvalue) (w w' : World) (r : Response) :
  pair c env o phone w = (Return r, w') →
  httpStatus r = 200 →
  let sessionId := generateId (randomTail o) in
  ∃ s k code,
    phone = VString s
    ∧ (minDigits c ≤ length (stripNonDigits s))%nat
    ∧ Forall (fun u => 48 ≤ u ≤ 57) (stripNonDigits s)
    ∧ pairingCode o = Return code
    ∧ r = response_generated sessionId code
    ∧ sessions w' !! sessionId
      = Some (fresh_record k (stripNonDigits s) (now o))
    ∧ (∃ children, disk w' !! sessionId = Some (Dir children))
    ∧ endCalls w' = endCalls w
    ∧ ∀ other, other ≠ sessionId →
               sessions w' !! other = sessions w !! other
               ∧ disk w' !! other = disk w !! other.
Proof.
  intros Hp H200. cbv zeta.
  destruct (pair_answers_not_200 c env o phone w) as [Hno|(s & -> & Hlen)].
  { exfalso. destruct Hno as [(r0 & Hp0 & Hr0)|Hthrow].
    - rewrite Hp0 in Hp. injection Hp as <- _. lia.
    - rewrite Hthrow in Hp. discriminate. }
  destruct (pair_valid_cases c env o s w Hlen)
    as [(k & code & Hdir & _ & Hcode & Hp1)|[(e & Hp1)|(e & k & _ & Hp1)]];
    rewrite Hp1 in Hp; injection Hp as <- <-; try discriminate.
  exists s, k, code.
  destruct (ensureDirSync env (generateId (randomTail o)) w)
    as [r1 w1] eqn:He. simpl in Hdir. subst r1. cbn [snd].
  destruct (ensureDirSync_effect env _ w w1 He) as (Hs & Hc & Hd & Hother).
  split; [done|]. split; [done|].
  split; [apply stripNonDigits_only_digits|]. split; [done|].
  split; [done|]. unfold registered. cbn [sessions disk endCalls].
  rewrite lookup_insert_eq. split; [done|]. split; [done|]. split; [done|].
  intros other Ho. rewrite lookup_insert_ne by done. rewrite Hs.
  split; [done|]. by apply Hother.
Qed.

Lemma pair_200_registered_witness :
  let o := smooth (CodeString (js "ABCD1234")) in
  let out := pair Copy1 calm o (VString (js "+254 712 345 678")) initial in
  ∃ k, sessions (snd out) !! generateId (randomTail o)
       = Some (fresh_record k (js "254712345678") (now o)).
Proof.
  cbv zeta.
  destruct (pair_200_registered Copy1 calm (smooth (CodeString (js "ABCD1234")))
              (VString (js "+254 712 345 678")) initial
              (snd (pair Copy1 calm (smooth (CodeString (js "ABCD1234")))
                      (VString (js "+254 712 345 678")) initial))
              (response_generated
                 (generateId (randomTail (smooth (CodeString (js "ABCD1234")))))
                 (CodeString (js "ABCD1234"))))
    as (s & k & code & Hs & _ & _ & _ & _ & Hrec & _).
  - vm_compute. reflexivity.
  - reflexivity.
  - exists k. injection Hs as <-. exact Hrec.
Defined.

(** X5. Whenever the handler answers 500, it has cleaned up after
    itself: if [removeSync] does not fail (and, in the second copy,
    [end()] does not throw), no record is left under the generated id
    and its directory is gone. *)
Theorem pair_500_released (c : copy) (env : Env) (o : PairOracle)
    (phone : jsvalue) (w w' : World) (r : Response) :
  pair c env o phone w = (Return r, w') →
  httpStatus r = 500 →
  removeSync_error env (generateId (randomTail o)) = None →
  (c = Copy2 → ∀ k, end_error env k = None) →
  sessions w' !! generateId (randomTail o) = None
  ∧ existsSync (fs_of w') (sessionPath (generateId (randomTail o))) = false.
Proof.
  intros Hp H500 Hrm Hend.
  destruct (pair_answers_not_200 c env o phone w) as [Hno|(s & -> & Hlen)].
  { exfalso. destruct Hno as [(r0 & Hp0 & Hr0)|Hthrow].
    - rewrite Hp0 in Hp. injection Hp as <- _. lia.
    - rewrite Hthrow in Hp. discriminate. }
  destruct (pair_valid_cases c env o s w Hlen)
    as [(k & code & _ & _ & _ & Hp1)|[(e & Hp1)|(e & k & _ & Hp1)]];
    rewrite Hp1 in Hp; injection Hp as <- <-; try discriminate;
    apply cleanupSessionOf_released; auto.
Qed.

Lemma pair_500_released_witness :
  let o := {| randomTail := js "K3J9X0QZ1AB"; authState := Return ();
              latestVersion := Return (); newSocket := Return 1%nat;
              now := 0%Z;
              pairingCode := Throw (Error (js "Connection Closed")) |} in
  let w' := snd (pair Copy1 calm o (VString (js "1234567")) initial) in
  sessions w' !! generateId (randomTail o) = None
  ∧ existsSync (fs_of w') (sessionPath (generateId (randomTail o))) = false.
Proof.
  cbv zeta.
  eapply (pair_500_released Copy1 calm _ (VString (js "1234567")) initial).
  - vm_compute. reflexivity.
  - reflexivity.
  - reflexivity.
  - discriminate.
Defined.

(* ===================================================================== *)
(** * Further properties: [cleanupSession] *)
(* ===================================================================== *)

(** X6. In every copy, [cleanupSession] of a session id that is one
    path component, as every id of [generateId] is, acts on its own
    session only: it does not throw, it leaves the records and the
    directories of all other sessions as they are, and it calls [end()]
    at most once, on the socket of the record of its session. *)
Theorem cleanupSession_own_session_only (c : copy) (env : Env)
    (sessionId : jsstring) (w : World) :
  is_path_component sessionId = true →
  let w' := snd (cleanupSessionOf c env sessionId w) in
  fst (cleanupSessionOf c env sessionId w) = Return ()
  ∧ (∀ other, other ≠ sessionId →
              sessions w' !! other = sessions w !! other
              ∧ disk w' !! other = disk w !! other)
  ∧ (endCalls w' = endCalls w
     ∨ ∃ s, sessions w !! sessionId = Some s
            ∧ endCalls w' = endCalls w ++ [sock s]).
Proof.
  intros _. cbv zeta. split; [apply cleanupSessionOf_returns|].
  destruct c; simpl;
    rewrite ?cleanupSession_world, ?cleanupSession2_world;
    destruct (existsSync (fs_of w) (sessionPath sessionId)
              && bool_decide (is_Some (removeSync_error env sessionId)));
    try (split; [done|by left]);
    (split;
     [intros other Ho; cbn [sessions disk]; split;
      [destruct (sessions w !! sessionId) as [s|];
       try destruct (end_error env (sock s));
       rewrite ?lookup_delete_ne by done; done
      |destruct (existsSync (fs_of w) (sessionPath sessionId));
       rewrite ?lookup_delete_ne by done; done]
     |cbn [endCalls]; destruct (sessions w !! sessionId) as [s|];
      [right; eauto|by left]]).
Qed.

Lemma cleanupSession_own_session_only_witness :
  let sessionId := generateId (randomTailOf (js "0.k3j9x0qz1abcdefgh")) in
  let w := run Copy1 calm
             (pairing_run sessionId
              ++ [EnsureDir (js "ALMEER_B2");
                  Register (js "ALMEER_B2") 2%nat (js "7654321") 0%Z]) initial in
  let w' := snd (cleanupSessionOf Copy1 calm sessionId w) in
  sessions w' !! js "ALMEER_B2" = sessions w !! js "ALMEER_B2"
  ∧ disk w' !! js "ALMEER_B2" = disk w !! js "ALMEER_B2".
Proof.
  cbv zeta.
  apply (cleanupSession_own_session_only Copy1 calm
           (generateId (randomTailOf (js "0.k3j9x0qz1abcdefgh")))).
  - vm_compute. reflexivity.
  - vm_compute. discriminate.
Defined.


(** X8. In the second copy a throwing [end()] is caught by the outer
    [catch], which skips [sessions.delete]: the call returns, the
    directory is removed, and the record stays in the map. *)
Theorem cleanupSession2_keeps_record (env : Env) (sessionId : jsstring)
    (w : World) (s : Session) (e : exn) :
  sessions w !! sessionId = Some s →
  end_error env (sock s) = Some e →
  removeSync_error env sessionId = None →
  let w' := snd (cleanupSession2 env sessionId w) in
  fst (cleanupSession2 env sessionId w) = Return ()
  ∧ sessions w' !! sessionId = Some s
  ∧ existsSync (fs_of w') (sessionPath sessionId) = false
  ∧ endCalls w' = endCalls w ++ [sock s].
Proof.
  intros Hs Hend Hrm. cbv zeta.
  split; [apply cleanupSession2_returns|].
  rewrite cleanupSession2_world, Hrm.
  rewrite bool_decide_eq_false_2 by (by intros [? ?]).
  rewrite andb_false_r, Hs, Hend. cbn [sessions endCalls].
  split; [done|]. split; [apply existsSync_after_removal|done].
Qed.

Lemma cleanupSession2_keeps_record_witness :
  let w := registered (js "ALMEER_A1")
             (fresh_record 1%nat (js "1234567") 0%Z) initial in
  let w' := snd (cleanupSession2 end_throws (js "ALMEER_A1") w) in
  fst (cleanupSession2 end_throws (js "ALMEER_A1") w) = Return ()
  ∧ sessions w' !! js "ALMEER_A1"
    = Some (fresh_record 1%nat (js "1234567") 0%Z)
  ∧ existsSync (fs_of w') (sessionPath (js "ALMEER_A1")) = false
  ∧ endCalls w' = endCalls w ++ [1%nat].
Proof.
  cbv zeta.
  apply (cleanupSession2_keeps_record end_throws (js "ALMEER_A1") _
           (fresh_record 1%nat (js "1234567") 0%Z)
           (Error (js "Connection Closed"))).
  - vm_compute. reflexivity.
  - reflexivity.
  - reflexivity.
Defined.

(* ===================================================================== *)
(** * Further properties: the callbacks and the lifecycle *)
(* ===================================================================== *)

Lemma connected_not_pending : connected ≠ pending.
Proof. discriminate. Qed.

(** X9. At every point of a run the watchdog of a session does one of
    two things: on a pending record it runs [cleanupSession]; on a
    connected record, in particular on every record that has a session
    string, it changes nothing. *)
Theorem watchdog_spares_connected (c : copy) (env : Env) (trace : list event)
    (sessionId : jsstring) (s : Session) :
  let w := run c env trace initial in
  sessions w !! sessionId = Some s →
  (status s = pending ∨ status s = connected)
  ∧ (status s = pending →
     onWatchdog c env sessionId w = cleanupSessionOf c env sessionId w)
  ∧ (status s = connected → onWatchdog c env sessionId w = (Return (), w))
  ∧ (sessionString s ≠ None → onWatchdog c env sessionId w = (Return (), w)).
Proof.
  cbv zeta. intros Hs.
  pose proof Hs as Ha. rewrite <- audit_world in Ha.
  pose proof (audit_consistent c env trace sessionId s Ha) as Hr.
  unfold record_agrees in Hr.
  assert (status s = connected →
          onWatchdog c env sessionId (run c env trace initial)
          = (Return (), run c env trace initial)) as Hconn.
  { intros Hst. unfold onWatchdog, ebind, sessions_get, eret. rewrite Hs.
    rewrite bool_decide_eq_false_2; [done|].
    rewrite Hst. apply connected_not_pending. }
  split; [by eapply run_statuses|]. split; [|split; [exact Hconn|]].
  - intros Hst. unfold onWatchdog, ebind, sessions_get. rewrite Hs.
    by rewrite bool_decide_eq_true_2.
  - intros Hstr. apply Hconn.
    destruct (snd (audit c env trace) !! sessionId); [tauto|].
    destruct Hr as [_ Hn]. done.
Qed.

Lemma watchdog_spares_connected_witness :
  onWatchdog Copy1 calm (js "ALMEER_A1")
    (run Copy1 calm (pairing_run (js "ALMEER_A1")) initial)
  = (Return (), run Copy1 calm (pairing_run (js "ALMEER_A1")) initial).
Proof.
  destruct (sessions (run Copy1 calm (pairing_run (js "ALMEER_A1")) initial)
              !! js "ALMEER_A1") as [s|] eqn:Hs;
    [|vm_compute in Hs; discriminate].
  apply (proj1 (proj2 (proj2 (watchdog_spares_connected Copy1 calm
                  (pairing_run (js "ALMEER_A1")) (js "ALMEER_A1") s Hs)))).
  vm_compute in Hs. injection Hs as <-. reflexivity.
Defined.

(** X10. One step of the lifecycle removes the record of a session only
    in three ways: by [cleanupSession] of that session, by its watchdog
    while the record is pending, or by a close of its connection with
    the logged-out code.  No other close code, no event of another
    session, no disk change removes it. *)
Theorem record_removed_only_by (c : copy) (env : Env) (w : World) (e : event)
    (sessionId : jsstring) (s : Session) :
  sessions w !! sessionId = Some s →
  sessions (step c env w e) !! sessionId = None →
  e = Cleanup sessionId
  ∨ (e = Watchdog sessionId ∧ status s = pending)
  ∨ e = Closed sessionId loggedOut.
Proof.
  intros Hs Hgone.
  destruct (decide (event_session e = Some sessionId)) as [He|He].
  2:{ rewrite step_other_session in Hgone by done. congruence. }
  destruct e as [id|id k ph t|id|id|id|id code|d]; simpl in He;
    try discriminate; injection He as ->.
  - unfold step in Hgone. simpl in Hgone.
    by rewrite lookup_insert_eq in Hgone.
  - by left.
  - right. left. split; [done|].
    destruct (decide (status s = pending)) as [|Hst]; [done|]. exfalso.
    unfold step in Hgone. simpl in Hgone.
    unfold onWatchdog, ebind, sessions_get, eret in Hgone.
    rewrite Hs in Hgone. rewrite bool_decide_eq_false_2 in Hgone by done.
    simpl in Hgone. congruence.
  - exfalso. unfold step in Hgone. simpl in Hgone.
    unfold encodeAndStore, ebind, sessions_get, sessions_set, eret in Hgone.
    destruct (encodeSessionOf c (fs_of w) (sessionPath sessionId));
      rewrite ?Hs in Hgone; simpl in Hgone;
      rewrite ?lookup_insert_eq in Hgone; congruence.
  - right. right.
    destruct (decide (code = loggedOut)) as [->|Hc]; [done|]. exfalso.
    unfold step in Hgone. simpl in Hgone. unfold onClose in Hgone.
    rewrite (proj2 (Z.eqb_neq _ _) Hc) in Hgone. simpl in Hgone. congruence.
Qed.

Lemma record_removed_only_by_witness :
  let w := registered (js "ALMEER_A1")
             (fresh_record 1%nat (js "1234567") 0%Z) initial in
  Closed (js "ALMEER_A1") 401 = Cleanup (js "ALMEER_A1")
  ∨ (Closed (js "ALMEER_A1") 401 = Watchdog (js "ALMEER_A1")
     ∧ status (fresh_record 1%nat (js "1234567") 0%Z) = pending)
  ∨ Closed (js "ALMEER_A1") 401 = Closed (js "ALMEER_A1") loggedOut.
Proof.
  cbv zeta.
  apply (record_removed_only_by Copy1 calm
           (registered (js "ALMEER_A1")
              (fresh_record 1%nat (js "1234567") 0%Z) initial)).
  - vm_compute. reflexivity.
  - vm_compute. reflexivity.
Defined.

(** What the open branch does after its waits. *)
Lemma encodeAndStore_effect (c : copy) (sessionId : jsstring) (w : World) :
  ∃ w', encodeAndStore c sessionId w = (Return (), w')
        ∧ disk w' = disk w
        ∧ endCalls w' = endCalls w
        ∧ (∀ other, other ≠ sessionId →
                    sessions w' !! other = sessions w !! other)
        ∧ (sessions w !! sessionId = None → w' = w)
        ∧ (∀ s, sessions w !! sessionId = Some s →
                ∃ outcome,
                  encodeSessionOf c (fs_of w) (sessionPath sessionId)
                    = Return outcome
                  ∧ sessions w' !! sessionId
                    = Some {| sock := sock s; phone := phone s;
                              status := connected;
                              sessionString := outcome;
                              createdAt := createdAt s |}).
Proof.
  destruct (encodeSessionOf_catches c (fs_of w) (sessionPath sessionId))
    as [outcome Henc].
  unfold encodeAndStore, ebind, sessions_get, sessions_set, eret.
  rewrite Henc.
  destruct (sessions w !! sessionId) as [s|] eqn:Hs.
  - eexists. split; [reflexivity|]. cbn [sessions disk endCalls].
    split; [done|]. split; [done|]. split.
    + intros other Ho. by rewrite lookup_insert_ne.
    + split; [done|]. intros s' [= <-]. exists outcome.
      split; [done|]. apply lookup_insert_eq.
  - exists w. split; [reflexivity|]. do 4 (split; [done|]). discriminate.
Qed.

(** X11. The open branch fails in one way only: when [saveCreds()]
    rejects, with its error, and then the branch has neither encoded
    nor stored anything; the world is what the callbacks and disk writes
    during the wait left, and the record of the session is untouched
    when none of them was the session's own.  When [saveCreds()]
    resolves, what follows the waits does not throw and writes to one
    place only, the record of its session: the disk, the [end()] calls
    and the other records are as they were when the waits ended.
    Without a record then (the session was cleaned up while the branch
    waited) it changes nothing, so a removed session is not brought
    back; with a record it sets [connected] and what [encodeSession]
    returns on the disk of that moment, and keeps [sock], [phone] and
    [createdAt]. *)
Theorem onOpen_effect (c : copy) (env : Env) (sessionId : jsstring)
    (saved : result unit) (meanwhile : list event) (w : World) :
  let resumed := run c env meanwhile w in
  (Forall (fun e => event_session e ≠ Some sessionId) meanwhile →
   sessions resumed !! sessionId = sessions w !! sessionId)
  ∧ match saved with
    | Throw e =>
        onOpen c env sessionId saved meanwhile w = (Throw e, resumed)
    | Return _ =>
        ∃ w', onOpen c env sessionId saved meanwhile w = (Return (), w')
              ∧ disk w' = disk resumed
              ∧ endCalls w' = endCalls resumed
              ∧ (∀ other, other ≠ sessionId →
                          sessions w' !! other = sessions resumed !! other)
              ∧ (sessions resumed !! sessionId = None → w' = resumed)
              ∧ (∀ s, sessions resumed !! sessionId = Some s →
                      ∃ outcome,
                        encodeSessionOf c (fs_of resumed)
                          (sessionPath sessionId) = Return outcome
                        ∧ sessions w' !! sessionId
                          = Some {| sock := sock s; phone := phone s;
                                    status := connected;
                                    sessionString := outcome;
                                    createdAt := createdAt s |})
    end.
Proof.
  cbv zeta. split; [apply run_other_sessions|].
  unfold onOpen, ebind. destruct saved as [[]|e]; [|reflexivity].
  apply encodeAndStore_effect.
Qed.

(** A record found after a step was stored by that step's
    [sessions.set], or was there before with the same socket, phone and
    creation time. *)
Lemma step_record_origin (c : copy) (env : Env) (w : World) (e : event)
    (sessionId : jsstring) (s' : Session) :
  sessions (step c env w e) !! sessionId = Some s' →
  (∃ k ph t, e = Register sessionId k ph t ∧ s' = fresh_record k ph t)
  ∨ (∃ s, sessions w !! sessionId = Some s
          ∧ sock s' = sock s ∧ phone s' = phone s
          ∧ createdAt s' = createdAt s).
Proof.
  intros Hs'.
  assert (∀ m : gmap jsstring Session,
            m = sessions w ∨ m = delete sessionId (sessions w) →
            m !! sessionId = Some s' →
            ∃ s, sessions w !! sessionId = Some s
                 ∧ sock s' = sock s ∧ phone s' = phone s
                 ∧ createdAt s' = createdAt s) as Hkeep.
  { intros m [-> | ->] Hm; [eauto|]. by rewrite lookup_delete_eq in Hm. }
  destruct (decide (event_session e = Some sessionId)) as [He|He].
  2:{ right. rewrite step_other_session in Hs' by done. eauto. }
  destruct e as [id|id k ph t|id|id|id|id code|d]; simpl in He;
    try discriminate; injection He as ->; unfold step in Hs'; simpl in Hs'.
  - left. rewrite lookup_insert_eq in Hs'. injection Hs' as <-. eauto.
  - right. eapply Hkeep; [apply cleanupSessionOf_sessions|exact Hs'].
  - right. eapply Hkeep; [apply onWatchdog_sessions|exact Hs'].
  - right. unfold encodeAndStore, ebind, sessions_get, sessions_set, eret in Hs'.
    destruct (encodeSessionOf c (fs_of w) (sessionPath sessionId));
      [|eauto].
    destruct (sessions w !! sessionId) as [s|] eqn:Hs; simpl in Hs';
      [|congruence].
    rewrite lookup_insert_eq in Hs'. injection Hs' as <-. eauto.
  - right. eapply Hkeep; [apply onClose_sessions|exact Hs'].
Qed.

(** An [end()] call made by a step is on the socket of a record. *)
Lemma step_endCalls (c : copy) (env : Env) (w : World) (e : event) (k : nat) :
  k ∈ endCalls (step c env w e) →
  k ∈ endCalls w ∨ ∃ sessionId s, sessions w !! sessionId = Some s ∧ sock s = k.
Proof.
  assert (∀ id, k ∈ endCalls (snd (cleanupSessionOf c env id w)) →
            k ∈ endCalls w
            ∨ ∃ sessionId s, sessions w !! sessionId = Some s ∧ sock s = k)
    as Hclean.
  { intros id. destruct c; simpl;
      rewrite ?cleanupSession_world, ?cleanupSession2_world;
      destruct (existsSync (fs_of w) (sessionPath id)
                && bool_decide (is_Some (removeSync_error env id)));
      auto; cbn [endCalls];
      destruct (sessions w !! id) as [s|] eqn:Hs; auto;
      rewrite elem_of_app, list_elem_of_singleton;
      intros [?| ->]; eauto. }
  unfold step.
  destruct e as [id|id k0 ph t|id|id|id|id code|d]; simpl.
  - unfold ensureDirSync. destruct (ensureDirSync_error env id); auto.
    destruct (disk w !! id) as [[]|]; auto.
  - auto.
  - apply Hclean.
  - unfold onWatchdog, ebind, sessions_get, eret.
    destruct (sessions w !! id) as [s|]; simpl; auto.
    destruct (bool_decide (status s = pending)); simpl; [apply Hclean|auto].
  - unfold encodeAndStore, ebind, sessions_get, sessions_set, eret.
    destruct (encodeSessionOf c (fs_of w) (sessionPath id)); auto.
    destruct (sessions w !! id); auto.
  - unfold onClose. destruct (code =? loggedOut)%Z; simpl; [apply Hclean|auto].
  - auto.
Qed.

Lemma run_snoc (c : copy) (env : Env) (trace : list event) (e : event)
    (w : World) :
  run c env (trace ++ [e]) w = step c env (run c env trace w) e.
Proof. unfold run. by rewrite foldl_app. Qed.

(** Every record of a run was stored by a [sessions.set] of the run, and
    every [end()] call of a run was made on a socket so stored. *)
Lemma run_provenance (c : copy) (env : Env) (trace : list event) :
  (∀ sessionId s,
     sessions (run c env trace initial) !! sessionId = Some s →
     Register sessionId (sock s) (phone s) (createdAt s) ∈ trace)
  ∧ (∀ k, k ∈ endCalls (run c env trace initial) →
          ∃ sessionId ph t, Register sessionId k ph t ∈ trace).
Proof.
  induction trace as [|e trace [IHs IHe]] using rev_ind.
  - split.
    + intros id s Hs. simpl in Hs. by rewrite lookup_empty in Hs.
    + intros k Hk. simpl in Hk. by apply elem_of_nil in Hk.
  - rewrite run_snoc. split.
    + intros id s' Hs'. rewrite elem_of_app.
      apply step_record_origin in Hs'
        as [(k & ph & t & -> & ->)|(s & Hs & -> & -> & ->)].
      * right. simpl. by apply list_elem_of_singleton.
      * left. by apply IHs.
    + intros k Hk.
      apply step_endCalls in Hk as [Hk|(id & s & Hs & <-)].
      * destruct (IHe k Hk) as (id & ph & t & Hin).
        exists id, ph, t. rewrite elem_of_app. by left.
      * exists id, (phone s), (createdAt s). rewrite elem_of_app.
        left. by apply IHs.
Qed.

(** X12. A record keeps its identity: at every point of a run, the
    socket, the phone and the creation time of a record are those given
    to a [sessions.set] of the run for that id; the open callback
    changes [status] and [sessionString] and nothing else. *)
Theorem record_identity_fixed (c : copy) (env : Env) (trace : list event)
    (sessionId : jsstring) (s : Session) :
  sessions (run c env trace initial) !! sessionId = Some s →
  Register sessionId (sock s) (phone s) (createdAt s) ∈ trace.
Proof. apply run_provenance. Qed.

Lemma record_identity_fixed_witness :
  Register (js "ALMEER_A1") 1%nat (js "1234567") 1700000000000%Z
  ∈ pairing_run (js "ALMEER_A1").
Proof.
  destruct (sessions (run Copy1 calm (pairing_run (js "ALMEER_A1")) initial)
              !! js "ALMEER_A1") as [s|] eqn:Hs;
    [|vm_compute in Hs; discriminate].
  pose proof (record_identity_fixed Copy1 calm (pairing_run (js "ALMEER_A1"))
                (js "ALMEER_A1") s Hs) as H.
  vm_compute in Hs. injection Hs as <-. exact H.
Defined.

(** X13. [end()] is only ever called on a socket that the program
    stored in the session map: every call in a run is on the socket of
    some [sessions.set] of that run. *)
Theorem end_only_on_registered_sockets (c : copy) (env : Env)
    (trace : list event) (k : nat) :
  k ∈ endCalls (run c env trace initial) →
  ∃ sessionId ph t, Register sessionId k ph t ∈ trace.
Proof. apply run_provenance. Qed.

Lemma end_only_on_registered_sockets_witness :
  ∃ sessionId ph t,
    Register sessionId 1%nat ph t
    ∈ pairing_run (js "ALMEER_A1") ++ [Cleanup (js "ALMEER_A1")].
Proof.
  apply (end_only_on_registered_sockets Copy1 calm).
  vm_compute. apply list_elem_of_In. simpl. auto.
Defined.

(** X14. Sessions are independent: callbacks of other sessions, in any
    number and order, change neither the record of a session nor what
    the two [GET] handlers answer for it. *)
Theorem other_sessions_do_not_interfere (c : copy) (env : Env)
    (others : list event) (w : World) (sessionId : jsstring) :
  Forall (fun e => event_session e ≠ Some sessionId) others →
  sessions (run c env others w) !! sessionId = sessions w !! sessionId
  ∧ statusHandler (run c env others w) sessionId = statusHandler w sessionId
  ∧ sessionHandler c (run c env others w) sessionId
    = sessionHandler c w sessionId.
Proof.
  intros H. pose proof (run_other_sessions c env others w sessionId H) as Hr.
  unfold statusHandler, sessionHandler. by rewrite Hr.
Qed.

Lemma other_sessions_do_not_interfere_witness :
  let w := run Copy1 calm (pairing_run (js "ALMEER_A1")) initial in
  let others := [Register (js "ALMEER_B2") 2%nat (js "7654321") 0%Z;
                 Closed (js "ALMEER_B2") 401; DiskWrite ∅] in
  sessions (run Copy1 calm others w) !! js "ALMEER_A1"
  = sessions w !! js "ALMEER_A1"
  ∧ statusHandler (run Copy1 calm others w) (js "ALMEER_A1")
    = statusHandler w (js "ALMEER_A1")
  ∧ sessionHandler Copy1 (run Copy1 calm others w) (js "ALMEER_A1")
    = sessionHandler Copy1 w (js "ALMEER_A1").
Proof.
  cbv zeta. apply other_sessions_do_not_interfere.
  repeat constructor; discriminate.
Defined.

(* ===================================================================== *)
(** * Further properties: the encoder *)
(* ===================================================================== *)

Lemma collectFiles_all_files (fs : FileSystem) (p : path)
    (names : list jsstring) (files : jsobject) :
  Forall (fun name => ∃ st, statSync fs (path_join p name) = Return st
                            ∧ isFile st = true) names →
  collectFiles2 fs p names files = collectFiles fs p names files.
Proof.
  intros H. revert files.
  induction H as [|name names (st & Hst & Hfile) _ IH]; intros files;
    [reflexivity|].
  cbn [collectFiles collectFiles2]. rewrite Hst. cbn [rbind]. rewrite Hfile.
  destruct (readFileSync fs (path_join p name)); cbn [rbind]; [apply IH|done].
Qed.

(** X15. On a directory whose every entry is a regular file the second
    copy of [encodeSession], which reads without asking [stat], returns
    what the first copy returns, whatever the reads give. *)
Theorem encodeSession_copies_agree (fs : FileSystem) (p : path) :
  (∀ names name,
     readdirSync fs p = Return names → name ∈ names →
     ∃ st, statSync fs (path_join p name) = Return st ∧ isFile st = true) →
  encodeSession2 fs p = encodeSession fs p.
Proof.
  intros H. unfold encodeSession2, encodeSession, encodeSession2_try,
    encodeSession_try.
  destruct (existsSync fs (path_join p creds_json)); [|reflexivity].
  cbn [negb]. destruct (readdirSync fs p) as [names|e] eqn:Hdir;
    [|reflexivity].
  cbn [rbind]. rewrite collectFiles_all_files; [reflexivity|].
  apply Forall_forall. intros name Hin. by apply (H names).
Qed.

Lemma encodeSession_copies_agree_witness :
  encodeSession2 (tree_fs (Dir paired_directory)) []
  = encodeSession (tree_fs (Dir paired_directory)) [].
Proof.
  apply encodeSession_copies_agree.
  intros names name Hdir Hin. vm_compute in Hdir. injection Hdir as <-.
  apply list_elem_of_In in Hin. simpl in Hin.
  destruct Hin as [<-|[<-|[]]]; eexists; split; vm_compute; reflexivity.
Defined.

(** When the first copy returns a string on a tree, the path is a
    directory that holds [creds.json] and no dangling link, and the
    string encodes what the loop gathered there. *)
Lemma encodeSession_string_conditions (root : node) (p : path)
    (blob : jsstring) :
  encodeSession (tree_fs root) p = Return (Some blob) →
  ∃ children marker,
    lookup_path root p = Some (Dir children)
    ∧ children !! creds_json = Some marker
    ∧ (∀ name, children !! name ≠ Some Dangling)
    ∧ blob = encode_files
               (gather children [] (map fst (map_to_list children))).
Proof.
  rewrite encodeSession_catches. unfold encodeSession_try.
  destruct (existsSync (tree_fs root) (path_join p creds_json)) eqn:Hex;
    cbn [negb]; [|discriminate].
  cbn [tree_fs existsSync] in Hex. rewrite lookup_path_snoc in Hex.
  destruct (lookup_path root p) as [[|children| |]|] eqn:Hp; try discriminate.
  destruct (children !! creds_json) as [marker|] eqn:Hm; [|discriminate].
  cbn [tree_fs readdirSync]. rewrite Hp. cbn [rbind].
  destruct (collectFiles _ p (map fst (map_to_list children)) [])
    as [files|e] eqn:Hc; cbn [rbind]; [|discriminate].
  intros [= <-]. exists children, marker.
  split; [done|]. split; [done|]. split.
  - intros name Hd.
    destruct (collectFiles_stat_failure (tree_fs root) p
                (map fst (map_to_list children)) name ENOENT []) as [e He].
    + apply readdir_names. by rewrite Hd.
    + cbn [tree_fs statSync]. by rewrite lookup_path_snoc, Hp, Hd.
    + congruence.
  - by rewrite (collectFiles_tree root p children Hp _ _ _ Hc).
Qed.

(** X16. On a tree, the first and third copy of [encodeSession] return
    a string exactly when the path is a directory that holds an entry
    [creds.json] (of any kind but a dangling link) and none of its
    entries is a dangling link; in every other case they return
    [null]. *)
Theorem encodeSession_string_exactly (root : node) (p : path) :
  ((∃ blob, encodeSession (tree_fs root) p = Return (Some blob))
   ↔ ∃ children marker,
       lookup_path root p = Some (Dir children)
       ∧ children !! creds_json = Some marker
       ∧ ∀ name, children !! name ≠ Some Dangling)
  ∧ (encodeSession (tree_fs root) p = Return None
     ∨ ∃ blob, encodeSession (tree_fs root) p = Return (Some blob)).
Proof.
  split.
  - split.
    + intros [blob Hb].
      apply encodeSession_string_conditions in Hb
        as (children & marker & ? & ? & ? & _). eauto.
    + intros (children & marker & Hp & Hm & Hd). eexists.
      by apply (encodeSession_returns_string root p children Hp marker).
  - rewrite encodeSession_catches.
    destruct (encodeSession_try (tree_fs root) p) as [[blob|]|]; eauto.
Qed.

(** X17. Every string the first or third copy returns on a tree decodes
    (base64, UTF-8, JSON) to exactly the regular files directly in the
    directory, each name with the text of the file, but for a file named
    [__proto__]; links to files count as files, and nothing below a
    subdirectory appears. *)
Theorem encodeSession_decodes_to_regular_files (root : node) (p : path)
    (children : gmap jsstring node) (blob : jsstring) :
  lookup_path root p = Some (Dir children) →
  directory_bounded children →
  encodeSession (tree_fs root) p = Return (Some blob) →
  ∃ files,
    decodeSession blob = Some files
    ∧ obj_map files = delete proto_key (regular_files children)
    ∧ ∀ name content,
        obj_get files name = Some content
        ↔ name ≠ proto_key ∧ children !! name = Some (File content).
Proof.
  intros Hp Hb Henc.
  destruct (encodeSession_string_conditions root p blob Henc)
    as (children' & marker & Hp' & Hm & Hd & _).
  assert (children' = children) as -> by congruence.
  destruct (encodeSession_roundtrip root p children Hp marker Hm Hd Hb)
    as (blob' & files & Henc' & Hdec & Hmap).
  assert (blob' = blob) as -> by congruence.
  exists files. split; [done|]. split; [done|].
  intros name content. rewrite <- obj_map_lookup, Hmap.
  rewrite lookup_delete_Some. unfold regular_files. rewrite lookup_omap.
  split.
  - intros [Hne Hl]. split; [done|].
    destruct (children !! name) as [[]|]; simpl in Hl; congruence.
  - intros [Hne Hl]. split; [done|]. by rewrite Hl.
Qed.

Lemma encodeSession_decodes_to_regular_files_witness :
  ∃ blob files,
    encodeSession (tree_fs (Dir directory_with_subdirectory)) []
      = Return (Some blob)
    ∧ decodeSession blob = Some files
    ∧ obj_map files
      = delete proto_key (regular_files directory_with_subdirectory).
Proof.
  destruct (encodeSession (tree_fs (Dir directory_with_subdirectory)) [])
    as [[blob|]|] eqn:Henc; try (vm_compute in Henc; discriminate).
  destruct (encodeSession_decodes_to_regular_files
              (Dir directory_with_subdirectory) []
              directory_with_subdirectory blob eq_refl)
    as (files & Hdec & Hmap & _).
  - intros name content Hn. unfold directory_with_subdirectory in Hn.
    rewrite !lookup_insert_Some, lookup_empty in Hn.
    destruct Hn as [[<- [= <-]]|[_ [[_ [=]]|[_ [=]]]]].
    split; by apply bounded_check.
  - exact Henc.
  - exists blob, files. split; [reflexivity|]. split; [exact Hdec|exact Hmap].
Defined.

Lemma JSON_stringify_well_formed (o : jsobject) :
  Forall (fun kv => bounded (fst kv) ∧ bounded (snd kv)) o →
  well_formed (JSON_stringify o) = true.
Proof.
  intros Hb. unfold JSON_stringify. rewrite well_formed_plain by lia.
  apply well_formed_app; [|done].
  apply join_well_formed; [done|].
  apply Forall_map. rewrite (own_entries_perm o).
  eapply Forall_impl; [exact Hb|].
  intros kv [Hk Hv]. by apply member_well_formed.
Qed.

Lemma base64_char_in_alphabet (n : N) :
  n < 64 → is_base64_char (base64_char n) = true.
Proof.
  intros Hn.
  assert (∀ k : nat, (k < 64)%nat →
            is_base64_char (base64_char (N.of_nat k)) = true) as H.
  { intros k Hk. do 64 (destruct k as [|k]; [reflexivity|]). lia. }
  rewrite <- (N2Nat.id n). apply H. lia.
Qed.

Lemma base64_encode_alphabet (bs : list N) :
  Forall (fun b => b < 256) bs →
  Forall (fun u => is_base64_char u = true) (base64_encode bs).
Proof.
  remember (length bs) as n eqn:Hn. revert bs Hn.
  induction n as [n IH] using lt_wf_ind. intros bs Hn Hbs.
  destruct bs as [|a [|b [|c r]]]; cbn [base64_encode].
  - constructor.
  - apply Forall_cons in Hbs as [Ha _].
    repeat (constructor; [apply base64_char_in_alphabet; dlia|]).
    by repeat constructor.
  - apply Forall_cons in Hbs as [Ha Hbs]. apply Forall_cons in Hbs as [Hb _].
    repeat (constructor; [apply base64_char_in_alphabet; dlia|]).
    by repeat constructor.
  - apply Forall_cons in Hbs as [Ha Hbs]. apply Forall_cons in Hbs as [Hb Hbs].
    apply Forall_cons in Hbs as [Hc Hbs].
    repeat (constructor; [apply base64_char_in_alphabet; dlia|]).
    apply (IH (length r)); [subst n; simpl; lia|reflexivity|exact Hbs].
Qed.

Lemma base64_encode_length (bs : list N) :
  (length (base64_encode bs) = 4 * ((length bs + 2) / 3))%nat.
Proof.
  remember (length bs) as n eqn:Hn. revert bs Hn.
  induction n as [n IH] using lt_wf_ind. intros bs Hn.
  destruct bs as [|a [|b [|c r]]]; try (subst n; reflexivity).
  cbn [base64_encode length].
  rewrite (IH (length r) ltac:(subst n; simpl; lia) r eq_refl).
  subst n. cbn [length].
  replace (S (S (S (length r))) + 2)%nat with (1 * 3 + (length r + 2))%nat
    by lia.
  rewrite Nat.div_add_l by lia. lia.
Qed.

(** X18. The session string the first and third copy return on a tree
    is plain base64 text: every character is of the base64 alphabet or
    the padding ['='], the length is four times the number of byte
    triples of the UTF-8 text of the JSON (so a multiple of four, and
    at least four). *)
Theorem sessionString_is_base64 (root : node) (p : path)
    (children : gmap jsstring node) (blob : jsstring) :
  lookup_path root p = Some (Dir children) →
  directory_bounded children →
  encodeSession (tree_fs root) p = Return (Some blob) →
  Forall (fun u => is_base64_char u = true) blob
  ∧ (∃ bytes, length blob = 4 * ((length bytes + 2) / 3)
              ∧ base64_decode blob = Some bytes)%nat
  ∧ (4 ≤ length blob)%nat.
Proof.
  intros Hp Hb Henc.
  destruct (encodeSession_string_conditions root p blob Henc)
    as (children' & marker & Hp' & _ & _ & ->).
  assert (children' = children) as -> by congruence.
  set (gathered := gather children [] (map fst (map_to_list children))).
  assert (Forall (fun b => b < 256) (utf8_encode (JSON_stringify gathered)))
    as Hbytes.
  { apply utf8_encode_bytes, JSON_stringify_well_formed.
    by apply gather_bounded. }
  unfold encode_files. split; [by apply base64_encode_alphabet|]. split.
  - exists (utf8_encode (JSON_stringify gathered)).
    split; [apply base64_encode_length|by apply base64_roundtrip].
  - rewrite base64_encode_length.
    assert (2 ≤ length (utf8_encode (JSON_stringify gathered)))%nat as Hlen.
    { unfold JSON_stringify. cbn [utf8_encode].
      change (123 <? 128) with true. cbv iota. cbn [length].
      destruct (join [44] _ ++ [125]) as [|u r] eqn:Hj.
      - by destruct (join [44]
                       (map (fun kv => QuoteJSONString kv.1 ++ 58 :: QuoteJSONString kv.2)
                          (own_entries gathered))).
      - destruct r as [|v r']; cbn [utf8_encode];
          repeat match goal with
                 | |- context [if ?b then _ else _] => destruct b
                 end; cbn [length app]; lia. }
    pose proof (Nat.Div0.div_le_mono 3
                  (length (utf8_encode (JSON_stringify gathered)) + 2) 3
                  ltac:(lia)) as Hd.
    change (3 / 3)%nat with 1%nat in Hd. lia.
Qed.

Lemma sessionString_is_base64_witness :
  ∃ blob,
    encodeSession (tree_fs (Dir directory_with_subdirectory)) []
      = Return (Some blob)
    ∧ Forall (fun u => is_base64_char u = true) blob.
Proof.
  destruct (encodeSession (tree_fs (Dir directory_with_subdirectory)) [])
    as [[blob|]|] eqn:Henc; try (vm_compute in Henc; discriminate).
  exists blob. split; [reflexivity|].
  apply (sessionString_is_base64 (Dir directory_with_subdirectory) []
           directory_with_subdirectory blob eq_refl); [|exact Henc].
  intros name content Hn. unfold directory_with_subdirectory in Hn.
  rewrite !lookup_insert_Some, lookup_empty in Hn.
  destruct Hn as [[<- [= <-]]|[_ [[_ [=]]|[_ [=]]]]].
  split; by apply bounded_check.
Defined.

(* ===================================================================== *)
(** * Further properties: from the pairing request to the session string *)
(* ===================================================================== *)

(** X19. From a 200 answer of [POST /api/pair] to the credentials
    (first and third copy), when no callback of the session itself runs
    while the open branch waits.  If [saveCreds()] rejects, the record
    stays as the request left it, pending: asked on that state,
    [GET /api/status] answers [pending] and [GET /api/session] answers
    400.  If it resolves, [GET /api/status] answers [connected]; and if
    the session directory then holds [creds.json] and no dangling link,
    [GET /api/session] answers 200 with a string that decodes to
    exactly the regular files of that directory (but for one named
    [__proto__]). *)
Theorem paired_session_is_retrievable (c : copy) (env : Env) (o : PairOracle)
    (phone : jsvalue) (w w1 : World) (r : Response)
    (saved : result unit) (meanwhile : list event) :
  c ≠ Copy2 →
  pair c env o phone w = (Return r, w1) →
  httpStatus r = 200 →
  Forall (fun e => event_session e ≠ Some (generateId (randomTail o)))
         meanwhile →
  let sessionId := generateId (randomTail o) in
  let resumed := run c env meanwhile w1 in
  let w2 := snd (onOpen c env sessionId saved meanwhile w1) in
  field "sessionId" r = Some (VString sessionId)
  ∧ (∀ e, saved = Throw e →
          sessions w2 !! sessionId = sessions w1 !! sessionId
          ∧ statusHandler w2 sessionId
            = {| httpStatus := 200; body := [("status", VString pending)] |}
          ∧ httpStatus (sessionHandler c w2 sessionId) = 400)
  ∧ (saved = Return () →
     statusHandler w2 sessionId
       = {| httpStatus := 200; body := [("status", VString connected)] |}
     ∧ ∀ children marker,
         disk resumed !! sessionId = Some (Dir children) →
         children !! creds_json = Some marker →
         (∀ name, children !! name ≠ Some Dangling) →
         directory_bounded children →
         ∃ blob files,
           sessionHandler c w2 sessionId
             = {| httpStatus := 200;
                  body := [("success", VBool true);
                           ("sessionId", VString sessionId);
                           ("sessionString", VString blob)] |}
           ∧ decodeSession blob = Some files
           ∧ obj_map files = delete proto_key (regular_files children)).
Proof.
  intros Hc Hp H200 Hquiet. cbv zeta.
  destruct (pair_200_cases c env o phone w w1 r Hp H200)
    as (s & k & code & _ & _ & _ & _ & -> & Hw1).
  set (id := generateId (randomTail o)) in *.
  split; [reflexivity|].
  pose proof (run_other_sessions c env meanwhile w1 id Hquiet) as Hrec.
  assert (sessions w1 !! id
          = Some (fresh_record k (stripNonDigits s) (now o))) as Hfresh.
  { rewrite Hw1. unfold registered. cbn [sessions]. apply lookup_insert_eq. }
  pose proof Hrec as Hsame. rewrite Hfresh in Hrec. clear Hw1 Hfresh Hp.
  unfold onOpen, ebind. cbv beta.
  set (resumed := run c env meanwhile w1) in *. split.
  - intros e ->. cbn [snd]. split; [exact Hsame|].
    unfold statusHandler, sessionHandler.
    rewrite Hrec. split; reflexivity.
  - intros ->.
    destruct (encodeSessionOf_catches c (fs_of resumed) (sessionPath id))
      as [outcome Henc].
    unfold encodeAndStore, ebind, sessions_get, sessions_set.
    rewrite Henc, Hrec. cbn [snd]. split.
    + unfold statusHandler. cbn [sessions]. by rewrite lookup_insert_eq.
    + intros children marker Hdir Hm Hd Hb.
      assert (lookup_path (Dir (disk resumed)) (sessionPath id)
              = Some (Dir children)) as Hpath.
      { change (sessionPath id) with (path_join [] id).
        rewrite lookup_path_snoc. cbn [lookup_path]. exact Hdir. }
      destruct (encodeSession_roundtrip _ (sessionPath id) children
                  Hpath marker Hm Hd Hb) as (blob & files & Henc2 & Hdec & Hmap).
      assert (outcome = Some blob) as ->.
      { unfold fs_of in Henc. destruct c; [|done|]; simpl in Henc; congruence. }
      pose proof (encodeSessionOf_nonempty c _ _ blob Henc) as Hne.
      exists blob, files. split; [|by split].
      unfold sessionHandler. cbn [sessions].
      rewrite lookup_insert_eq. cbn [status sessionString string_missing].
      rewrite bool_decide_eq_true_2 by done.
      rewrite (bool_decide_eq_false_2 _ Hne). reflexivity.
Qed.

Lemma paired_session_is_retrievable_witness :
  let o := smooth (CodeString (js "ABCD1234")) in
  let id := generateId (randomTail o) in
  let w1 := snd (pair Copy1 calm o (VString (js "+254 712 345 678")) initial) in
  let w2 := snd (onOpen Copy1 calm id (Return ())
                   [DiskWrite (<[id := Dir paired_directory]> ∅)] w1) in
  ∃ blob files,
    sessionHandler Copy1 w2 id
      = {| httpStatus := 200;
           body := [("success", VBool true);
                    ("sessionId", VString id);
                    ("sessionString", VString blob)] |}
    ∧ decodeSession blob = Some files
    ∧ obj_map files = delete proto_key (regular_files paired_directory).
Proof.
  cbv zeta.
  destruct (paired_session_is_retrievable Copy1 calm
              (smooth (CodeString (js "ABCD1234")))
              (VString (js "+254 712 345 678")) initial
              (snd (pair Copy1 calm (smooth (CodeString (js "ABCD1234")))
                      (VString (js "+254 712 345 678")) initial))
              (response_generated
                 (generateId (randomTail (smooth (CodeString (js "ABCD1234")))))
                 (CodeString (js "ABCD1234")))
              (Return ())
              [DiskWrite
                 (<[generateId (randomTail (smooth (CodeString (js "ABCD1234"))))
                    := Dir paired_directory]> ∅)])
    as (_ & _ & Hopen).
  - discriminate.
  - vm_compute. reflexivity.
  - reflexivity.
  - repeat constructor. discriminate.
  - destruct (Hopen eq_refl) as [_ Hsession].
    apply (Hsession paired_directory (File (js "{}"))).
    + vm_compute. reflexivity.
    + reflexivity.
    + intros name Hn. unfold paired_directory in Hn.
      rewrite !lookup_insert_Some, lookup_empty in Hn.
      destruct Hn as [[_ [=]]|[_ [[_ [=]]|[_ [=]]]]].
    + intros name content Hn. unfold paired_directory in Hn.
      rewrite !lookup_insert_Some, lookup_empty in Hn.
      destruct Hn as [[<- [= <-]]|[_ [[<- [= <-]]|[_ [=]]]]];
        split; by apply bounded_check.
Defined.

(* ===================================================================== *)
(** * Further properties: the formatted pairing code *)
(* ===================================================================== *)

Lemma take_dots_spec (n : nat) (s m r : jsstring) :
  take_dots n s = (m, r) →
  s = m ++ r ∧ (length m ≤ n)%nat
  ∧ Forall (fun u => is_line_terminator u = false) m.
Proof.
  revert s m r.
  induction n as [|n IH]; intros s m r; destruct s as [|u s'];
    cbn [take_dots];
    try (intros [= <- <-]; repeat split; simpl; [lia|done]).
  destruct (is_line_terminator u) eqn:Hu.
  { intros [= <- <-]. repeat split; simpl; [lia|done]. }
  destruct (take_dots n s') as [m' r'] eqn:Ht. intros [= <- <-].
  destruct (IH s' m' r' Ht) as (-> & Hl & Hf).
  split; [done|]. split; [simpl; lia|by constructor].
Qed.

Lemma take_dots_cons (n : nat) (u : N) (s : jsstring) :
  take_dots (S n) (u :: s)
  = if is_line_terminator u then ([], u :: s)
    else let '(m, r) := take_dots n s in (u :: m, r).
Proof. reflexivity. Qed.

Lemma dotted_plain (s : jsstring) :
  Forall (fun u => is_line_terminator u = false) s → dotted s = s.
Proof.
  unfold dotted. induction 1 as [|u s Hu _ IH]; [done|].
  rewrite filter_cons_True by done. by rewrite IH.
Qed.

Lemma match_dots_fuel_spec (fuel : nat) (s : jsstring) :
  (length s ≤ fuel)%nat →
  concat (match_dots_fuel fuel s) = dotted s
  ∧ Forall (fun g => (1 ≤ length g ≤ 4)%nat) (match_dots_fuel fuel s).
Proof.
  revert s. induction fuel as [|fuel IH]; intros s Hlen.
  { destruct s; [by split|simpl in Hlen; lia]. }
  destruct s as [|u s']; [by split|].
  cbn [match_dots_fuel]. cbn [length] in Hlen.
  destruct (take_dots 4 (u :: s')) as [m r] eqn:Ht.
  destruct (take_dots_spec 4 (u :: s') m r Ht) as (Hs & Hl & Hf).
  rewrite (take_dots_cons 3) in Ht. destruct (is_line_terminator u) eqn:Hu.
  - injection Ht as <- <-.
    unfold dotted. rewrite filter_cons_False by (by rewrite Hu).
    apply IH. lia.
  - destruct (take_dots 3 s') as [m' r'] eqn:Ht'. injection Ht as <- <-.
    assert (length r' ≤ fuel)%nat as Hr.
    { apply (f_equal length) in Hs. rewrite length_app in Hs.
      cbn [length] in Hs. lia. }
    destruct (IH r' Hr) as [Hc Hg]. split.
    + cbn [concat]. rewrite Hc, Hs. unfold dotted at 2.
      rewrite filter_app. fold (dotted (u :: m')). fold (dotted r').
      by rewrite (dotted_plain (u :: m') Hf).
    + constructor; [cbn [length] in *; lia|done].
Qed.

(** X20. What the formatted code is, for every code.  The groups that
    [-] joins are between one and four code units long and, read one
    after the other, are the code without its line terminators, which
    [.] does not match; when the code is made of line terminators only
    (or is empty) there is no group and the code is passed on as it
    is.  So a code is never lost, and the groups are the code itself
    exactly when it holds no line terminator. *)
Theorem formatCode_groups (raw : jsstring) :
  ∃ out,
    formatCode (Some raw) = Some out
    ∧ ((dotted raw = [] ∧ out = raw)
       ∨ ∃ groups,
           groups ≠ []
           ∧ out = join (js "-") groups
           ∧ concat groups = dotted raw
           ∧ Forall (fun g => (1 ≤ length g ≤ 4)%nat) groups)
    ∧ (dotted raw = raw
       ↔ Forall (fun u => is_line_terminator u = false) raw).
Proof.
  assert (dotted raw = raw
          ↔ Forall (fun u => is_line_terminator u = false) raw) as Hplain.
  { split; [|apply dotted_plain]. intros <-. unfold dotted.
    apply Forall_forall. intros u Hu. by apply list_elem_of_filter in Hu as [? _]. }
  unfold formatCode, match_dots.
  destruct (match_dots_fuel_spec (length raw) raw (le_n _)) as [Hc Hg].
  destruct (match_dots_fuel (length raw) raw) as [|g gs] eqn:Hm.
  - exists raw. split; [done|]. split; [|done]. left. by split.
  - assert (g ≠ []) as Hne.
    { apply Forall_cons in Hg as [Hl _]. intros ->. simpl in Hl. lia. }
    pose proof (join_cons_nonempty (js "-") g gs Hne) as Hj.
    destruct (join (js "-") (g :: gs)) as [|u out] eqn:Hjoin; [done|].
    exists (u :: out). split; [done|]. split; [|done].
    right. exists (g :: gs). by rewrite Hjoin.
Qed.

Lemma filter_join (P : N → Prop) `{!∀ u, Decision (P u)}
    (sep : jsstring) (groups : list jsstring) :
  filter P sep = [] →
  filter P (join sep groups) = filter P (concat groups).
Proof.
  intros Hsep. induction groups as [|g groups IH]; [done|].
  destruct groups as [|g' groups].
  - cbn [join concat]. by rewrite app_nil_r.
  - change (join sep (g :: g' :: groups))
      with (g ++ sep ++ join sep (g' :: groups)).
    change (concat (g :: g' :: groups)) with (g ++ concat (g' :: groups)).
    by rewrite !filter_app, Hsep, IH.
Qed.

Lemma join_chunk4_length (s : jsstring) :
  (length (join (js "-") (chunk4 s)) = length s + (length s - 1) / 4)%nat.
Proof.
  remember (length s) as n eqn:Hn. revert s Hn.
  induction n as [n IH] using lt_wf_ind. intros s Hn.
  destruct s as [|a [|b [|c [|d r]]]]; try (subst n; reflexivity).
  cbn [chunk4].
  pose proof (IH (length r) ltac:(subst n; simpl; lia) r eq_refl) as Hr.
  destruct r as [|a' r'] eqn:Er; [subst n; reflexivity|].
  rewrite <- Er in *.
  assert (∃ g gs, chunk4 r = g :: gs) as (g & gs & Hgs).
  { rewrite Er. destruct r' as [|b' [|c' [|d' r'']]]; cbn [chunk4]; eauto. }
  rewrite Hgs in *.
  change (join (js "-") ([a; b; c; d] :: g :: gs))
    with ([a; b; c; d] ++ js "-" ++ join (js "-") (g :: gs)).
  rewrite !length_app, Hr. change (length (js "-")) with 1%nat.
  subst n. cbn [length].
  assert (1 ≤ length r)%nat as Hpos by (rewrite Er; simpl; lia).
  replace (S (S (S (S (length r)))) - 1)%nat
    with (1 * 4 + (length r - 1))%nat by lia.
  rewrite Nat.div_add_l by lia. lia.
Qed.

(** X21. The formatting loses nothing on an ordinary code: for a code
    with no line terminator and no ['-'] of its own, taking the ['-']
    out of the formatted code gives the code back, and the formatted
    code is longer than the code by one ['-'] for every full group of
    four that has something after it. *)
Theorem formatCode_reversible (raw : jsstring) :
  Forall (fun u => is_line_terminator u = false) raw →
  Forall (fun u => u ≠ 45) raw →
  ∃ out,
    formatCode (Some raw) = Some out
    ∧ without_dashes out = raw
    ∧ (length out = length raw + (length raw - 1) / 4)%nat.
Proof.
  intros Hplain Hdash. exists (join (js "-") (chunk4 raw)).
  split; [by apply formatCode_plain|]. split.
  - unfold without_dashes. rewrite filter_join by reflexivity.
    rewrite chunk4_concat.
    induction Hdash as [|u s Hu _ IH]; [done|].
    apply Forall_cons in Hplain as [_ Hplain].
    rewrite filter_cons_True by done. by rewrite IH.
  - apply join_chunk4_length.
Qed.

Lemma formatCode_reversible_witness :
  ∃ out,
    formatCode (Some (js "ABCD1234")) = Some out
    ∧ without_dashes out = js "ABCD1234"
    ∧ length out = 9%nat.
Proof.
  apply (formatCode_reversible (js "ABCD1234")).
  - vm_compute. repeat constructor.
  - vm_compute. repeat (constructor; [discriminate|]). constructor.
Defined.
